(** * sqlite-backup: the backup stepping harness of [cmd/backup.go]

    The program opens two database handles, captures their native
    connections through a connect hook, creates a backup session and drives
    it one page at a time, checking the page accounting after every step.

    Everything the program talks to (database/sql, the SQLite driver, the
    backup session, the clock) is outside the repository.  The program is
    deterministic, so a run is a function of the answers it receives: a
    [World] records, call site by call site, what the outside answers when
    asked.  [main] turns a [World] into the outcome of the run and the list
    of calls it made, in order. *)

From Stdlib Require Import String ZArith List Bool Lia.
Import ListNotations.
Open Scope Z_scope.

(** ** Go integers *)

(** [int] (taken at 64 bits) and [int64] subtraction wrap around. *)
Definition int_min : Z := - 2 ^ 63.
Definition int_max : Z := 2 ^ 63 - 1.

Definition wrap64 (z : Z) : Z := (z + 2 ^ 63) mod 2 ^ 64 - 2 ^ 63.

Definition int_sub (x y : Z) : Z := wrap64 (x - y).
Definition int64_sub (x y : Z) : Z := wrap64 (x - y).

Definition in_int (z : Z) : Prop := int_min <= z <= int_max.

(** ** Package-level variables (lines 12-15) *)

Definition default_source : string := "source.db".
Definition default_dest : string := "dest.db".
Definition driverName : string := "sqlite3_backup".
Definition timeout : Z := 10.

(** ** Data *)

(** A non-nil Go [error], by its text. *)
Definition Err : Type := string.

(** [srcDb] and [dstDb]. *)
Inductive Handle : Type := Src | Dst.

(** A [*sqlite.SQLiteConn]; the pointer may be nil, hence [option Conn]
    wherever the program holds one. *)
Definition Conn : Type := nat.

(** The [log.Fatal] / [log.Fatalf] sites of [main], with the values they
    print. *)
Inductive Failure : Type :=
| OpenFailed (h : Handle) (e : Err)             (* lines 30, 38 *)
| WrongConnCount (n : nat)                      (* line 45 *)
| NilSourceConn                                 (* line 49 *)
| NilDestConn                                   (* line 53 *)
| BackupFailed (e : Err)                        (* line 58 *)
| ProbeFailed (e : Err)                         (* line 63 *)
| UnexpectedlyDone                              (* line 66 *)
| BadInitialPageCount (v : Z)                   (* line 72 *)
| BadInitialRemaining (v : Z)                   (* line 76 *)
| InitialMismatch (remaining pageCount : Z)     (* line 79 *)
| StepFailed (e : Err)                          (* line 90 *)
| PageCountChanged (initial current : Z)        (* line 96 *)
| BadRemaining (expected actual : Z)            (* line 103 *)
| TakingTooLong                                 (* line 113 *)
| FinalPageCountChanged (initial final : Z)     (* line 120 *)
| BadFinalRemaining (v : Z)                     (* line 124 *)
| FinishFailed (e : Err).                       (* line 130 *)

(** The format string of each site. *)
Definition fatal_text (f : Failure) : string :=
  match f with
  | OpenFailed _ e => e
  | WrongConnCount _ => "Expected 2 driver connections, but found %v."
  | NilSourceConn => "The source database driver connection is nil."
  | NilDestConn => "The destination database driver connection is nil."
  | BackupFailed _ => "Error calling backup"
  | ProbeFailed _ => "Unable to perform an initial 0-page backup step:"
  | UnexpectedlyDone => "Backup is unexpectedly done."
  | BadInitialPageCount _ => "Unexpected initial page count value: %v"
  | BadInitialRemaining _ => "Unexpected initial remaining value: %v"
  | InitialMismatch _ _ =>
      "Initial remaining value differs from the initial page count value; remaining: %v; page count: %v"
  | StepFailed _ => "Failed to perform a backup step:"
  | PageCountChanged _ _ =>
      "Current page count differs from the initial page count; initial page count: %v; current page count: %v"
  | BadRemaining _ _ =>
      "Unexpected remaining value; expected remaining value: %v; actual remaining value: %v"
  | TakingTooLong => "Backup is taking longer than expected."
  | FinalPageCountChanged _ _ =>
      "Final page count differs from the initial page count; initial page count: %v; final page count: %v"
  | BadFinalRemaining _ => "Unexpected remaining value: %v"
  | FinishFailed _ => "Failed to finish backup:"
  end.

(** The failures of lines 44-54: the captured connections are not as
    expected. *)
Definition is_config_error (f : Failure) : bool :=
  match f with
  | WrongConnCount _ | NilSourceConn | NilDestConn => true
  | _ => false
  end.

(** The failures of lines 65-80: the checks made right after the probe. *)
Definition is_probe_check (f : Failure) : bool :=
  match f with
  | UnexpectedlyDone | BadInitialPageCount _ | BadInitialRemaining _
  | InitialMismatch _ _ => true
  | _ => false
  end.

(** The failures of lines 95-104: the checks made after a one-page step. *)
Definition is_step_check (f : Failure) : bool :=
  match f with
  | PageCountChanged _ _ | BadRemaining _ _ => true
  | _ => false
  end.

(** What the program does that is visible outside, one entry per call. *)
Inductive Event : Type :=
| EvOpen (h : Handle) (path : string)   (* sql.Open(driverName, path) *)
| EvPing (h : Handle)                   (* db.Ping() *)
| EvClose (h : Handle)                  (* db.Close() *)
| EvBackup (dest src : Conn)            (* dest.Backup("main", src, "main") *)
| EvStep (n : Z)                        (* backup.Step(n) *)
| EvPageCount                           (* backup.PageCount() *)
| EvRemaining                           (* backup.Remaining() *)
| EvNow                                 (* time.Now().Unix() *)
| EvFinish                              (* backup.Finish() *)
| EvLog (f : Failure)                   (* the line log.Fatal prints *)
| EvExit (code : Z).                    (* the process ends *)

Definition is_finish (e : Event) : bool :=
  match e with EvFinish => true | _ => false end.
Definition is_close (e : Event) : bool :=
  match e with EvClose _ => true | _ => false end.
Definition is_close_of (h : Handle) (e : Event) : bool :=
  match e, h with
  | EvClose Src, Src | EvClose Dst, Dst => true
  | _, _ => false
  end.
Definition is_backup (e : Event) : bool :=
  match e with EvBackup _ _ => true | _ => false end.
Definition is_step (e : Event) : bool :=
  match e with EvStep _ => true | _ => false end.
Definition is_step_of (n : Z) (e : Event) : bool :=
  match e with EvStep m => m =? n | _ => false end.
Definition is_now (e : Event) : bool :=
  match e with EvNow => true | _ => false end.
Definition is_log (e : Event) : bool :=
  match e with EvLog _ => true | _ => false end.
Definition is_accessor (e : Event) : bool :=
  match e with EvPageCount | EvRemaining => true | _ => false end.

(** Number of entries of a trace that satisfy [f]. *)
Definition count (f : Event -> bool) (tr : list Event) : nat :=
  List.length (filter f tr).

(** ** The outside world *)

(** A database/sql call: the connections the driver handed to the connect
    hook while the call ran, and the call's result. *)
Record DbCall : Type := {
  hooked : list (option Conn);
  answer : option Err
}.

(** One turn of the stepping loop, as the outside answers it: the result of
    [Step(1)], then what [PageCount()], [Remaining()] and the clock return
    if they are asked. *)
Record Iter : Type := {
  it_step : Err + bool;
  it_pageCount : Z;
  it_remaining : Z;
  it_now : Z
}.

(** A run, as seen from the program once [flag.Parse] has returned: the
    two paths, then the answer at every call site. *)
Record World : Type := {
  sourceFile : string;            (* flag -source *)
  destFile : string;              (* flag -dest *)
  w_open_src : DbCall;            (* line 28 *)
  w_ping_src : DbCall;            (* line 34 *)
  w_open_dst : DbCall;            (* line 36 *)
  w_ping_dst : DbCall;            (* line 41 *)
  w_backup : option Err;          (* line 56 *)
  w_probe : Err + bool;           (* line 61 *)
  w_pageCount0 : Z;               (* line 70 *)
  w_remaining0 : Z;               (* line 74 *)
  w_start : Z;                    (* line 82 *)
  w_iters : list Iter;            (* lines 86-115, one entry per turn *)
  w_final_pageCount : Z;          (* line 118 *)
  w_final_remaining : Z;          (* line 122 *)
  w_finish : option Err           (* line 128 *)
}.

(** ** The process *)

(** The state of the process that matters here: the slice the hook
    appends to, the stack of deferred calls, and the calls made so far. *)
Record Proc : Type := {
  driverConns : list (option Conn);   (* line 20, appended to by the hook *)
  deferred : list Handle;             (* deferred Close calls, latest first *)
  events : list Event
}.

(** The process when [main] starts. *)
Definition start : Proc :=
  {| driverConns := []; deferred := []; events := [] |}.

(** A computation ends with a value, or in [log.Fatal] (which prints and
    calls [os.Exit(1)]), or is still waiting for the outside when the
    recorded answers end. *)
Inductive Res (A : Type) : Type :=
| Val (a : A)
| Halt (f : Failure)
| Starved.
Arguments Val {A} a.
Arguments Halt {A} f.
Arguments Starved {A}.

(** Code of [main]: from the process before to a result and the process
    after. *)
Definition M (A : Type) : Type := Proc -> Res A * Proc.

Definition ret {A} (a : A) : M A := fun p => (Val a, p).

Definition bind {A B} (m : M A) (k : A -> M B) : M B :=
  fun p =>
    match m p with
    | (Val a, p') => k a p'
    | (Halt f, p') => (Halt f, p')
    | (Starved, p') => (Starved, p')
    end.

Notation "x <- m ;; k" := (bind m (fun x => k))
  (at level 61, m at next level, right associativity).
Notation "m ;;; k" := (bind m (fun _ => k))
  (at level 61, right associativity).

Definition emit (tr : list Event) : M unit :=
  fun p => (Val tt, {| driverConns := driverConns p;
                       deferred := deferred p;
                       events := events p ++ tr |}).

(** [log.Fatal]: print, then [os.Exit(1)].  Nothing runs afterwards,
    deferred calls included. *)
Definition fatal {A} (f : Failure) : M A :=
  fun p => (Halt f, {| driverConns := driverConns p;
                       deferred := deferred p;
                       events := events p ++ [EvLog f; EvExit 1] |}).

(** No recorded answer is left. *)
Definition starve {A} : M A := fun p => (Starved, p).

(** The connect hook of lines 22-25, run once per connection the driver
    creates. *)
Definition connectHook (conns : list (option Conn)) : M unit :=
  fun p => (Val tt, {| driverConns := driverConns p ++ conns;
                       deferred := deferred p;
                       events := events p |}).

(** [defer db.Close()]. *)
Definition defer_close (h : Handle) : M unit :=
  fun p => (Val tt, {| driverConns := driverConns p;
                       deferred := h :: deferred p;
                       events := events p |}).

Definition get_driverConns : M (list (option Conn)) :=
  fun p => (Val (driverConns p), p).

(** *** Calls to the outside *)

Definition sql_open (h : Handle) (path : string) (c : DbCall) : M (option Err) :=
  emit [EvOpen h path] ;;; connectHook (hooked c) ;;; ret (answer c).

Definition db_ping (h : Handle) (c : DbCall) : M (option Err) :=
  emit [EvPing h] ;;; connectHook (hooked c) ;;; ret (answer c).

Definition conn_backup (dest src : Conn) (r : option Err) : M (option Err) :=
  emit [EvBackup dest src] ;;; ret r.

Definition backup_step (n : Z) (r : Err + bool) : M (Err + bool) :=
  emit [EvStep n] ;;; ret r.

Definition backup_pageCount (v : Z) : M Z := emit [EvPageCount] ;;; ret v.
Definition backup_remaining (v : Z) : M Z := emit [EvRemaining] ;;; ret v.
Definition backup_finish (r : option Err) : M (option Err) :=
  emit [EvFinish] ;;; ret r.
Definition time_now_unix (v : Z) : M Z := emit [EvNow] ;;; ret v.

(** ** The stepping loop (lines 86-115) *)

(** How a turn of the loop ends: on [break], or at the end of the body. *)
Inductive Flow : Type := Break | Next.

(** One turn of the loop; returns how the turn ends and the new
    [latestRemaining]. *)
Definition loop_body (initialPageCount startTime latestRemaining : Z)
    (it : Iter) : M (Flow * Z) :=
  r <- backup_step 1 (it_step it) ;;
  match r with
  | inl e => fatal (StepFailed e)
  | inr isDone =>
      currentPageCount <- backup_pageCount (it_pageCount it) ;;
      if negb (currentPageCount =? initialPageCount)
      then fatal (PageCountChanged initialPageCount currentPageCount)
      else
        currentRemaining <- backup_remaining (it_remaining it) ;;
        let expectedRemaining := int_sub latestRemaining 1 in
        if negb (currentRemaining =? expectedRemaining)
        then fatal (BadRemaining expectedRemaining currentRemaining)
        else
          let latestRemaining := currentRemaining in
          if isDone then ret (Break, latestRemaining)
          else
            now <- time_now_unix (it_now it) ;;
            if int64_sub now startTime >? timeout
            then fatal TakingTooLong
            else ret (Next, latestRemaining)
  end.

(** The [for] of lines 86-115: one entry of [its] per turn.  The loop ends
    on [break] or in [log.Fatal]; when the recorded turns end first, the
    run is still stepping. *)
Fixpoint loop (initialPageCount startTime latestRemaining : Z)
    (its : list Iter) : M Z :=
  match its with
  | [] => starve
  | it :: rest =>
      fl <- loop_body initialPageCount startTime latestRemaining it ;;
      match fl with
      | (Break, latest) => ret latest
      | (Next, latest) => loop initialPageCount startTime latest rest
      end
  end.

(** ** [main] *)

(** Lines 117-131: the final checks and [Finish]. *)
Definition finishing (w : World) (initialPageCount : Z) : M unit :=
  finalPageCount <- backup_pageCount (w_final_pageCount w) ;;
  if negb (finalPageCount =? initialPageCount)
  then fatal (FinalPageCountChanged initialPageCount finalPageCount)
  else
    finalRemaining <- backup_remaining (w_final_remaining w) ;;
    if negb (finalRemaining =? 0)
    then fatal (BadFinalRemaining finalRemaining)
    else
      err <- backup_finish (w_finish w) ;;
      match err with
      | Some e => fatal (FinishFailed e)
      | None => ret tt
      end.

(** Lines 82-131: the start time, the loop, then the final part. *)
Definition stepping (w : World) (initialPageCount initialRemaining : Z)
    : M unit :=
  startTime <- time_now_unix (w_start w) ;;
  _ <- loop initialPageCount startTime initialRemaining (w_iters w) ;;
  finishing w initialPageCount.

(** Lines 56-80: the session, the zero-page probe and its checks. *)
Definition session (w : World) (srcDbDriverConn destDbDriverConn : Conn)
    : M unit :=
  err <- conn_backup destDbDriverConn srcDbDriverConn (w_backup w) ;;
  match err with
  | Some e => fatal (BackupFailed e)
  | None =>
      r <- backup_step 0 (w_probe w) ;;
      match r with
      | inl e => fatal (ProbeFailed e)
      | inr isDone =>
          if isDone then fatal UnexpectedlyDone
          else
            initialPageCount <- backup_pageCount (w_pageCount0 w) ;;
            if initialPageCount <=? 0
            then fatal (BadInitialPageCount initialPageCount)
            else
              initialRemaining <- backup_remaining (w_remaining0 w) ;;
              if initialRemaining <=? 0
              then fatal (BadInitialRemaining initialRemaining)
              else if negb (initialRemaining =? initialPageCount)
              then fatal (InitialMismatch initialRemaining initialPageCount)
              else stepping w initialPageCount initialRemaining
      end
  end.

(** Lines 44-54: the captured connections.  The case [[c0; c1]] is
    [len(driverConns) == 2], with [c0] and [c1] the entries at 0 and 1. *)
Definition check_conns (w : World) : M unit :=
  conns <- get_driverConns ;;
  match conns with
  | [c0; c1] =>
      match c0 with
      | None => fatal NilSourceConn
      | Some srcDbDriverConn =>
          match c1 with
          | None => fatal NilDestConn
          | Some destDbDriverConn =>
              session w srcDbDriverConn destDbDriverConn
          end
      end
  | _ => fatal (WrongConnCount (List.length conns))
  end.

(** Lines 28-41, then the rest of the body. *)
Definition main_body (w : World) : M unit :=
  err <- sql_open Src (sourceFile w) (w_open_src w) ;;
  match err with
  | Some e => fatal (OpenFailed Src e)
  | None =>
      defer_close Src ;;;
      _ <- db_ping Src (w_ping_src w) ;;
      err <- sql_open Dst (destFile w) (w_open_dst w) ;;
      match err with
      | Some e => fatal (OpenFailed Dst e)
      | None =>
          defer_close Dst ;;;
          _ <- db_ping Dst (w_ping_dst w) ;;
          check_conns w
      end
  end.

(** How a run ends. *)
Inductive Outcome : Type :=
| Returned                  (* main returned: exit status 0 *)
| Aborted (f : Failure)     (* log.Fatal: exit status 1 *)
| Waiting.                  (* still stepping when the record ends *)

(** The whole program.  When the body returns, the deferred calls run,
    latest first, and the process ends; after [log.Fatal] they do not. *)
Definition main (w : World) : Outcome * list Event :=
  match main_body w start with
  | (Val _, p) => (Returned, events p ++ map EvClose (deferred p) ++ [EvExit 0])
  | (Halt f, p) => (Aborted f, events p)
  | (Starved, p) => (Waiting, events p)
  end.

Definition outcome (w : World) : Outcome := fst (main w).
Definition trace (w : World) : list Event := snd (main w).

(** ** The engine of the spec *)

Module SpecEngine.

(** Modelled from the spec: the storage engine's backup session, which is
    not part of the repository.  A session knows the page count of the
    source ([totalPages], fixed) and how many pages remain
    ([remainingPages]). *)
Record Session : Type := {
  totalPages : Z;
  remainingPages : Z
}.

(** Modelled from the spec: a fresh session has copied nothing, so every
    page of the source remains. *)
Definition create (pages : Z) : Session :=
  {| totalPages := pages; remainingPages := pages |}.

(** Modelled from the spec: [step(session, n)] leaves the page count
    alone, lowers the remaining count by [n], clamped at 0, and reports done
    if and only if nothing remains. *)
Definition step (n : Z) (s : Session) : bool * Session :=
  let r := Z.max 0 (remainingPages s - n) in
  (r =? 0, {| totalPages := totalPages s; remainingPages := r |}).

(** Modelled from the spec: the answers of [k] one-page steps of the
    engine, with the clock reading [now]. *)
Fixpoint iters (k : nat) (now : Z) (s : Session) : list Iter :=
  match k with
  | O => []
  | S k' =>
      let (d, s') := step 1 s in
      {| it_step := inr d;
         it_pageCount := totalPages s';
         it_remaining := remainingPages s';
         it_now := now |} :: iters k' now s'
  end.

(** Modelled from the spec: the session after [k] one-page steps. *)
Fixpoint after (k : nat) (s : Session) : Session :=
  match k with
  | O => s
  | S k' => after k' (snd (step 1 s))
  end.

(** Modelled from the spec: a run against the engine on a source of
    [pages] pages, with healthy handles, the two connections captured in
    order and a clock that stands still. *)
Definition world (pages : Z) : World :=
  let s0 := snd (step 0 (create pages)) in
  let k := Z.to_nat pages in
  {| sourceFile := default_source;
     destFile := default_dest;
     w_open_src := {| hooked := []; answer := None |};
     w_ping_src := {| hooked := [Some 1%nat]; answer := None |};
     w_open_dst := {| hooked := []; answer := None |};
     w_ping_dst := {| hooked := [Some 2%nat]; answer := None |};
     w_backup := None;
     w_probe := inr (fst (step 0 (create pages)));
     w_pageCount0 := totalPages s0;
     w_remaining0 := remainingPages s0;
     w_start := 0;
     w_iters := iters k 0 s0;
     w_final_pageCount := totalPages (after k s0);
     w_final_remaining := remainingPages (after k s0);
     w_finish := None |}.

End SpecEngine.

(** ** Describing runs *)

(** The process after it made the calls [tr]. *)
Definition push (p : Proc) (tr : list Event) : Proc :=
  {| driverConns := driverConns p;
     deferred := deferred p;
     events := events p ++ tr |}.

(** What one turn adds to the trace when it reads the clock, and when it
    does not. *)
Definition turn_events : list Event := [EvStep 1; EvPageCount; EvRemaining; EvNow].
Definition last_turn_events : list Event := [EvStep 1; EvPageCount; EvRemaining].

(** The events a run of the loop can add. *)
Definition loop_event (e : Event) : bool :=
  match e with
  | EvStep n => n =? 1
  | EvPageCount | EvRemaining | EvNow | EvLog _ => true
  | EvExit c => c =? 1
  | _ => false
  end.

(** The six ways a turn can end: the result of [loop_body] and the calls
    it adds to the trace. *)
Inductive turn_spec (ipc st lat : Z) (it : Iter) : Res (Flow * Z) -> list Event -> Prop :=
| TurnStepError e :
    it_step it = inl e ->
    turn_spec ipc st lat it (Halt (StepFailed e))
      [EvStep 1; EvLog (StepFailed e); EvExit 1]
| TurnPageCount d :
    it_step it = inr d -> it_pageCount it <> ipc ->
    turn_spec ipc st lat it (Halt (PageCountChanged ipc (it_pageCount it)))
      [EvStep 1; EvPageCount;
       EvLog (PageCountChanged ipc (it_pageCount it)); EvExit 1]
| TurnRemaining d :
    it_step it = inr d -> it_pageCount it = ipc ->
    it_remaining it <> int_sub lat 1 ->
    turn_spec ipc st lat it
      (Halt (BadRemaining (int_sub lat 1) (it_remaining it)))
      [EvStep 1; EvPageCount; EvRemaining;
       EvLog (BadRemaining (int_sub lat 1) (it_remaining it)); EvExit 1]
| TurnDone :
    it_step it = inr true -> it_pageCount it = ipc ->
    it_remaining it = int_sub lat 1 ->
    turn_spec ipc st lat it (Val (Break, it_remaining it)) last_turn_events
| TurnTimeout :
    it_step it = inr false -> it_pageCount it = ipc ->
    it_remaining it = int_sub lat 1 ->
    timeout < int64_sub (it_now it) st ->
    turn_spec ipc st lat it (Halt TakingTooLong)
      (turn_events ++ [EvLog TakingTooLong; EvExit 1])
| TurnNext :
    it_step it = inr false -> it_pageCount it = ipc ->
    it_remaining it = int_sub lat 1 ->
    int64_sub (it_now it) st <= timeout ->
    turn_spec ipc st lat it (Val (Next, it_remaining it)) turn_events.

(** The failures of the loop: lines 90, 96, 103 and 113. *)
Definition is_loop_failure (f : Failure) : bool :=
  match f with
  | StepFailed _ | PageCountChanged _ _ | BadRemaining _ _ | TakingTooLong => true
  | _ => false
  end.

(** A turn passes and the loop goes on: the step neither failed nor
    reported done, both checks hold and the deadline has not passed. *)
Definition turn_passes (ipc st lat : Z) (it : Iter) : bool :=
  match it_step it with
  | inr false =>
      (it_pageCount it =? ipc) && (it_remaining it =? int_sub lat 1)
      && (int64_sub (it_now it) st <=? timeout)
  | _ => false
  end.

(** Every turn of [pre] passes, each starting from the remaining count the
    one before it left. *)
Fixpoint chain (ipc st lat : Z) (pre : list Iter) : bool :=
  match pre with
  | [] => true
  | it :: rest => turn_passes ipc st lat it && chain ipc st (it_remaining it) rest
  end.

(** [latestRemaining] after the turns of [pre], all of which pass. *)
Fixpoint latest_after (lat : Z) (pre : list Iter) : Z :=
  match pre with
  | [] => lat
  | it :: rest => latest_after (it_remaining it) rest
  end.

(** The calls of the turns of [pre], all of which pass. *)
Definition turns_events (pre : list Iter) : list Event :=
  concat (map (fun _ => turn_events) pre).

(** The calls of lines 28-41 when both handles open. *)
Definition setup_events (w : World) : list Event :=
  [EvOpen Src (sourceFile w); EvPing Src; EvOpen Dst (destFile w); EvPing Dst].

(** What [driverConns] holds at line 44: every connection the hook saw,
    in order. *)
Definition captured (w : World) : list (option Conn) :=
  hooked (w_open_src w) ++ hooked (w_ping_src w) ++
  hooked (w_open_dst w) ++ hooked (w_ping_dst w).

(** The process at line 44, both handles open. *)
Definition at_check (w : World) : Proc :=
  {| driverConns := captured w;
     deferred := [Dst; Src];
     events := setup_events w |}.

(** Both [sql.Open] calls succeed. *)
Definition opened (w : World) : Prop :=
  answer (w_open_src w) = None /\ answer (w_open_dst w) = None.

(** Both handles open, exactly two connections captured, neither nil, and
    the engine accepted the session. *)
Definition session_created (w : World) (s d : Conn) : Prop :=
  opened w /\ captured w = [Some s; Some d] /\ w_backup w = None.

(** The probe and the checks of lines 65-80 pass. *)
Definition probe_passed (w : World) : Prop :=
  w_probe w = inr false /\ 0 < w_pageCount0 w /\ 0 < w_remaining0 w /\
  w_remaining0 w = w_pageCount0 w.

(** The calls of lines 56-74 when the probe passes. *)
Definition probe_events (s d : Conn) : list Event :=
  [EvBackup d s; EvStep 0; EvPageCount; EvRemaining].

(** The process at line 82. *)
Definition at_loop (w : World) (s d : Conn) : Proc :=
  push (at_check w) (probe_events s d).

(** The trace up to the loop's first turn. *)
Definition before_loop (w : World) (s d : Conn) : list Event :=
  setup_events w ++ probe_events s d ++ [EvNow].

(** The failures before the loop. *)
Definition is_early_failure (f : Failure) : bool :=
  match f with
  | OpenFailed _ _ | WrongConnCount _ | NilSourceConn | NilDestConn
  | BackupFailed _ | ProbeFailed _ | UnexpectedlyDone
  | BadInitialPageCount _ | BadInitialRemaining _ | InitialMismatch _ _ => true
  | _ => false
  end.

(** The runs that end before a session exists, with their whole trace. *)
Inductive setup_abort (w : World) : Failure -> list Event -> Prop :=
| SetupOpenSrc e :
    answer (w_open_src w) = Some e ->
    setup_abort w (OpenFailed Src e)
      [EvOpen Src (sourceFile w); EvLog (OpenFailed Src e); EvExit 1]
| SetupOpenDst e :
    answer (w_open_src w) = None -> answer (w_open_dst w) = Some e ->
    setup_abort w (OpenFailed Dst e)
      [EvOpen Src (sourceFile w); EvPing Src; EvOpen Dst (destFile w);
       EvLog (OpenFailed Dst e); EvExit 1]
| SetupCount :
    opened w -> List.length (captured w) <> 2%nat ->
    setup_abort w (WrongConnCount (List.length (captured w)))
      (setup_events w ++
       [EvLog (WrongConnCount (List.length (captured w))); EvExit 1])
| SetupNilSrc c1 :
    opened w -> captured w = [None; c1] ->
    setup_abort w NilSourceConn
      (setup_events w ++ [EvLog NilSourceConn; EvExit 1])
| SetupNilDst s :
    opened w -> captured w = [Some s; None] ->
    setup_abort w NilDestConn
      (setup_events w ++ [EvLog NilDestConn; EvExit 1])
| SetupBackup s d e :
    opened w -> captured w = [Some s; Some d] -> w_backup w = Some e ->
    setup_abort w (BackupFailed e)
      (setup_events w ++ [EvBackup d s; EvLog (BackupFailed e); EvExit 1]).

(** The runs that end at the probe: what follows the creation of the
    session. *)
Inductive probe_abort (w : World) : Failure -> list Event -> Prop :=
| ProbeError e :
    w_probe w = inl e ->
    probe_abort w (ProbeFailed e)
      [EvStep 0; EvLog (ProbeFailed e); EvExit 1]
| ProbeDone :
    w_probe w = inr true ->
    probe_abort w UnexpectedlyDone
      [EvStep 0; EvLog UnexpectedlyDone; EvExit 1]
| ProbePageCount :
    w_probe w = inr false -> w_pageCount0 w <= 0 ->
    probe_abort w (BadInitialPageCount (w_pageCount0 w))
      [EvStep 0; EvPageCount;
       EvLog (BadInitialPageCount (w_pageCount0 w)); EvExit 1]
| ProbeRemaining :
    w_probe w = inr false -> 0 < w_pageCount0 w -> w_remaining0 w <= 0 ->
    probe_abort w (BadInitialRemaining (w_remaining0 w))
      [EvStep 0; EvPageCount; EvRemaining;
       EvLog (BadInitialRemaining (w_remaining0 w)); EvExit 1]
| ProbeMismatch :
    w_probe w = inr false -> 0 < w_pageCount0 w -> 0 < w_remaining0 w ->
    w_remaining0 w <> w_pageCount0 w ->
    probe_abort w (InitialMismatch (w_remaining0 w) (w_pageCount0 w))
      [EvStep 0; EvPageCount; EvRemaining;
       EvLog (InitialMismatch (w_remaining0 w) (w_pageCount0 w)); EvExit 1].

(** The ways the run ends once the loop has exited: the outcome and what
    is added to the trace. *)
Inductive finish_spec (w : World) (ipc : Z) : Outcome -> list Event -> Prop :=
| FinPageCount :
    w_final_pageCount w <> ipc ->
    finish_spec w ipc (Aborted (FinalPageCountChanged ipc (w_final_pageCount w)))
      [EvPageCount;
       EvLog (FinalPageCountChanged ipc (w_final_pageCount w)); EvExit 1]
| FinRemaining :
    w_final_pageCount w = ipc -> w_final_remaining w <> 0 ->
    finish_spec w ipc (Aborted (BadFinalRemaining (w_final_remaining w)))
      [EvPageCount; EvRemaining;
       EvLog (BadFinalRemaining (w_final_remaining w)); EvExit 1]
| FinError e :
    w_final_pageCount w = ipc -> w_final_remaining w = 0 ->
    w_finish w = Some e ->
    finish_spec w ipc (Aborted (FinishFailed e))
      [EvPageCount; EvRemaining; EvFinish; EvLog (FinishFailed e); EvExit 1]
| FinOk :
    w_final_pageCount w = ipc -> w_final_remaining w = 0 ->
    w_finish w = None ->
    finish_spec w ipc Returned
      [EvPageCount; EvRemaining; EvFinish;
       EvClose Dst; EvClose Src; EvExit 0].

(** ** Runs on small inputs *)

(** A turn whose step succeeds: the done flag, the two counts and the
    clock. *)
Definition turn (done : bool) (pageCount remaining now : Z) : Iter :=
  {| it_step := inr done; it_pageCount := pageCount;
     it_remaining := remaining; it_now := now |}.

(** A run with healthy handles and both connections captured, whose probe
    reports [pages] pages, all remaining, at clock reading [start]. *)
Definition healthy (pages start : Z) (its : list Iter)
    (finalPageCount finalRemaining : Z) : World :=
  {| sourceFile := default_source;
     destFile := default_dest;
     w_open_src := {| hooked := []; answer := None |};
     w_ping_src := {| hooked := [Some 1%nat]; answer := None |};
     w_open_dst := {| hooked := []; answer := None |};
     w_ping_dst := {| hooked := [Some 2%nat]; answer := None |};
     w_backup := None;
     w_probe := inr false;
     w_pageCount0 := pages;
     w_remaining0 := pages;
     w_start := start;
     w_iters := its;
     w_final_pageCount := finalPageCount;
     w_final_remaining := finalRemaining;
     w_finish := None |}.

(** Three pages; the second step returns 11 seconds after the start. *)
Definition slow_world : World :=
  healthy 3 100 [turn false 3 2 105; turn false 3 1 111; turn true 3 0 112] 3 0.

(** Three pages; the last step returns 11 seconds after the start. *)
Definition late_world : World :=
  healthy 3 100 [turn false 3 2 105; turn false 3 1 110; turn true 3 0 111] 3 0.

(** Three pages; the first one-page step fails. *)
Definition failing_step_world : World :=
  healthy 3 100
    [{| it_step := inl "disk I/O error"%string; it_pageCount := 3;
        it_remaining := 3; it_now := 100 |}] 3 0.

(** The driver hands only the source connection to the hook. *)
Definition one_conn_world : World :=
  {| sourceFile := default_source;
     destFile := default_dest;
     w_open_src := {| hooked := []; answer := None |};
     w_ping_src := {| hooked := [Some 1%nat]; answer := None |};
     w_open_dst := {| hooked := []; answer := None |};
     w_ping_dst := {| hooked := []; answer := None |};
     w_backup := None;
     w_probe := inr false;
     w_pageCount0 := 3;
     w_remaining0 := 3;
     w_start := 100;
     w_iters := [];
     w_final_pageCount := 3;
     w_final_remaining := 0;
     w_finish := None |}.



(** One page, copied by the first step. *)
Definition one_page_world : World := healthy 1 100 [turn true 1 0 100] 1 0.

(** Healthy handles and both connections captured; the probe reports
    done. *)
Definition done_probe_world : World :=
  {| sourceFile := default_source;
     destFile := default_dest;
     w_open_src := {| hooked := []; answer := None |};
     w_ping_src := {| hooked := [Some 1%nat]; answer := None |};
     w_open_dst := {| hooked := []; answer := None |};
     w_ping_dst := {| hooked := [Some 2%nat]; answer := None |};
     w_backup := None;
     w_probe := inr true;
     w_pageCount0 := 3;
     w_remaining0 := 3;
     w_start := 100;
     w_iters := [];
     w_final_pageCount := 3;
     w_final_remaining := 0;
     w_finish := None |}.

(** The answers of the probe are those of the engine of [SpecEngine] on a
    source of no pages. *)
Definition empty_source (w : World) : Prop :=
  w_probe w = inr (fst (SpecEngine.step 0 (SpecEngine.create 0))) /\
  w_pageCount0 w =
    SpecEngine.totalPages (snd (SpecEngine.step 0 (SpecEngine.create 0))) /\
  w_remaining0 w =
    SpecEngine.remainingPages (snd (SpecEngine.step 0 (SpecEngine.create 0))).

(** The two checks of lines 71 and 75. *)
Definition is_positivity_check (f : Failure) : bool :=
  match f with
  | BadInitialPageCount _ | BadInitialRemaining _ => true
  | _ => false
  end.

(** ** Instants and clock readings *)

(** [Time.Unix()]: an instant, in nanoseconds since the epoch, as whole
    seconds since the epoch (rounded down). *)
Definition unix_seconds (nanos : Z) : Z := nanos / 1000000000.

(** Two pages.  The loop starts at the instant 100.0 s; the first step
    returns at 110.2 s, not done, the second at 110.4 s, done. *)
Definition truncated_clock_world : World :=
  healthy 2 (unix_seconds 100000000000)
    [turn false 2 1 (unix_seconds 110200000000);
     turn true 2 0 (unix_seconds 110400000000)] 2 0.

(** ** More on runs *)

Definition is_exit (e : Event) : bool :=
  match e with EvExit _ => true | _ => false end.

(** How the loop ends when a turn ends this way: on a value after
    [break], in the failure of the turn; it goes on otherwise. *)
Definition loop_result_of (rb : Res (Flow * Z)) : option (Res Z) :=
  match rb with
  | Val (Break, l) => Some (Val l)
  | Val (Next, _) => None
  | Halt f => Some (Halt f)
  | Starved => None
  end.

(** The step of the turn reports done. *)
Definition reports_done (it : Iter) : bool :=
  match it_step it with
  | inr true => true
  | _ => false
  end.

(** The first turn whose step reports done. *)
Definition first_done (its : list Iter) : option Iter := find reports_done its.

(** A run with both connections captured in order, everything else
    given. *)
Definition scripted (open_src open_dst backup : option Err)
    (probe : Err + bool) (pageCount0 remaining0 start : Z)
    (its : list Iter) (finalPageCount finalRemaining : Z) : World :=
  {| sourceFile := default_source;
     destFile := default_dest;
     w_open_src := {| hooked := []; answer := open_src |};
     w_ping_src := {| hooked := [Some 1%nat]; answer := None |};
     w_open_dst := {| hooked := []; answer := open_dst |};
     w_ping_dst := {| hooked := [Some 2%nat]; answer := None |};
     w_backup := backup;
     w_probe := probe;
     w_pageCount0 := pageCount0;
     w_remaining0 := remaining0;
     w_start := start;
     w_iters := its;
     w_final_pageCount := finalPageCount;
     w_final_remaining := finalRemaining;
     w_finish := None |}.

(** The engine refuses the session. *)
Definition no_session_world : World :=
  scripted None None (Some "destination database is in use"%string)
    (inr false) 3 3 100 [] 3 0.

(** The zero-page step fails. *)
Definition failing_probe_world : World :=
  scripted None None None (inl "disk I/O error"%string) 3 3 100 [] 3 0.


(** Two pages; the second one-page step fails. *)
Definition second_step_fails_world : World :=
  scripted None None None (inr false) 2 2 100
    [turn false 2 1 101;
     {| it_step := inl "disk I/O error"%string; it_pageCount := 2;
        it_remaining := 1; it_now := 102 |}] 2 0.

(** One page; the engine never reports done, the count goes below 0 and
    the clock stops exactly 10 seconds after the start. *)
Definition endless_world : World :=
  scripted None None None (inr false) 1 1 100
    [turn false 1 0 110; turn false 1 (-1) 110; turn false 1 (-2) 110] 1 0.

(** Both connections are made while the source is pinged. *)
Definition early_conns_world : World :=
  {| sourceFile := default_source;
     destFile := default_dest;
     w_open_src := {| hooked := []; answer := None |};
     w_ping_src := {| hooked := [Some 7%nat; Some 8%nat]; answer := None |};
     w_open_dst := {| hooked := []; answer := None |};
     w_ping_dst := {| hooked := []; answer := None |};
     w_backup := None;
     w_probe := inr true;
     w_pageCount0 := 0;
     w_remaining0 := 0;
     w_start := 100;
     w_iters := [];
     w_final_pageCount := 0;
     w_final_remaining := 0;
     w_finish := None |}.

(** The same world with the captured connections handed to the hook
    during other calls. *)
Definition with_hooks (h_open_src h_ping_src h_open_dst h_ping_dst :
                         list (option Conn)) (w : World) : World :=
  {| sourceFile := sourceFile w;
     destFile := destFile w;
     w_open_src := {| hooked := h_open_src; answer := answer (w_open_src w) |};
     w_ping_src := {| hooked := h_ping_src; answer := answer (w_ping_src w) |};
     w_open_dst := {| hooked := h_open_dst; answer := answer (w_open_dst w) |};
     w_ping_dst := {| hooked := h_ping_dst; answer := answer (w_ping_dst w) |};
     w_backup := w_backup w;
     w_probe := w_probe w;
     w_pageCount0 := w_pageCount0 w;
     w_remaining0 := w_remaining0 w;
     w_start := w_start w;
     w_iters := w_iters w;
     w_final_pageCount := w_final_pageCount w;
     w_final_remaining := w_final_remaining w;
     w_finish := w_finish w |}.


(** ** Proof steps *)

(** Unfolds the calls to the outside and the plumbing of [M]. *)
Ltac unfold_calls :=
  unfold sql_open, db_ping, conn_backup, backup_step, backup_pageCount,
    backup_remaining, backup_finish, time_now_unix, defer_close,
    connectHook, get_driverConns, bind, emit, ret, fatal, push;
  simpl.

(** * Properties *)

(** ** Sample runs *)

(** Three pages, copied in three steps. *)
Example run_three_pages :
  main (healthy 3 100 [turn false 3 2 100; turn false 3 1 100; turn true 3 0 100] 3 0) =
  (Returned,
   [EvOpen Src "source.db"; EvPing Src; EvOpen Dst "dest.db"; EvPing Dst;
    EvBackup 2%nat 1%nat; EvStep 0; EvPageCount; EvRemaining; EvNow;
    EvStep 1; EvPageCount; EvRemaining; EvNow;
    EvStep 1; EvPageCount; EvRemaining; EvNow;
    EvStep 1; EvPageCount; EvRemaining;
    EvPageCount; EvRemaining; EvFinish;
    EvClose Dst; EvClose Src; EvExit 0]).
Proof. reflexivity. Qed.

(** ** Traces *)

Lemma push_nil p : push p [] = p.
Proof. destruct p; unfold push; simpl. now rewrite app_nil_r. Qed.

Lemma push_push p t1 t2 : push (push p t1) t2 = push p (t1 ++ t2).
Proof. unfold push; simpl. now rewrite app_assoc. Qed.

Lemma count_app f t1 t2 : count f (t1 ++ t2) = (count f t1 + count f t2)%nat.
Proof. unfold count. now rewrite filter_app, length_app. Qed.

Lemma count_none f g tr :
  (forall e, g e = true -> f e = false) ->
  Forall (fun e => g e = true) tr -> count f tr = 0%nat.
Proof.
  intros Hfg H. unfold count.
  induction H as [|e tr He _ IH]; simpl; [reflexivity|].
  now rewrite (Hfg e He).
Qed.

(** ** Wrap-around *)

Lemma wrap64_id z : in_int z -> wrap64 z = z.
Proof.
  unfold in_int, int_min, int_max, wrap64. intros H.
  rewrite Z.mod_small; lia.
Qed.

Lemma int_sub_one lat : int_min < lat <= int_max -> int_sub lat 1 = lat - 1.
Proof.
  intros H. unfold int_sub. apply wrap64_id.
  unfold in_int, int_min, int_max in *. lia.
Qed.

(** ** One turn of the loop *)

Lemma loop_body_step_error ipc st lat it p e :
  it_step it = inl e ->
  loop_body ipc st lat it p =
  (Halt (StepFailed e), push p [EvStep 1; EvLog (StepFailed e); EvExit 1]).
Proof.
  intros H. unfold loop_body, backup_step, bind, emit, ret, fatal, push.
  simpl. rewrite H. simpl. now rewrite <- app_assoc.
Qed.

Lemma loop_body_page_count ipc st lat it p d :
  it_step it = inr d -> it_pageCount it <> ipc ->
  loop_body ipc st lat it p =
  (Halt (PageCountChanged ipc (it_pageCount it)),
   push p [EvStep 1; EvPageCount;
           EvLog (PageCountChanged ipc (it_pageCount it)); EvExit 1]).
Proof.
  intros H Hpc. apply Z.eqb_neq in Hpc.
  unfold loop_body; unfold_calls. rewrite H. simpl. rewrite Hpc. simpl.
  now rewrite <- !app_assoc.
Qed.

Lemma loop_body_remaining ipc st lat it p d :
  it_step it = inr d -> it_pageCount it = ipc ->
  it_remaining it <> int_sub lat 1 ->
  loop_body ipc st lat it p =
  (Halt (BadRemaining (int_sub lat 1) (it_remaining it)),
   push p [EvStep 1; EvPageCount; EvRemaining;
           EvLog (BadRemaining (int_sub lat 1) (it_remaining it)); EvExit 1]).
Proof.
  intros H Hpc Hrem. apply Z.eqb_eq in Hpc. apply Z.eqb_neq in Hrem.
  unfold loop_body; unfold_calls. rewrite H. simpl. rewrite Hpc. simpl. rewrite Hrem. simpl.
  now rewrite <- !app_assoc.
Qed.

Lemma loop_body_done ipc st lat it p :
  it_step it = inr true -> it_pageCount it = ipc ->
  it_remaining it = int_sub lat 1 ->
  loop_body ipc st lat it p =
  (Val (Break, it_remaining it), push p last_turn_events).
Proof.
  intros H Hpc Hrem. apply Z.eqb_eq in Hpc. apply Z.eqb_eq in Hrem.
  unfold loop_body; unfold_calls. rewrite H. simpl. rewrite Hpc. simpl. rewrite Hrem. simpl.
  now rewrite <- !app_assoc.
Qed.

Lemma loop_body_timeout ipc st lat it p :
  it_step it = inr false -> it_pageCount it = ipc ->
  it_remaining it = int_sub lat 1 ->
  timeout < int64_sub (it_now it) st ->
  loop_body ipc st lat it p =
  (Halt TakingTooLong, push p (turn_events ++ [EvLog TakingTooLong; EvExit 1])).
Proof.
  intros H Hpc Hrem Ht. apply Z.eqb_eq in Hpc. apply Z.eqb_eq in Hrem.
  apply Z.gtb_lt in Ht.
  unfold loop_body; unfold_calls. rewrite H. simpl. rewrite Hpc. simpl. rewrite Hrem. simpl.
  rewrite Ht. simpl. now rewrite <- !app_assoc.
Qed.

Lemma loop_body_next ipc st lat it p :
  it_step it = inr false -> it_pageCount it = ipc ->
  it_remaining it = int_sub lat 1 ->
  int64_sub (it_now it) st <= timeout ->
  loop_body ipc st lat it p =
  (Val (Next, it_remaining it), push p turn_events).
Proof.
  intros H Hpc Hrem Ht. apply Z.eqb_eq in Hpc. apply Z.eqb_eq in Hrem.
  assert (Hgt : (int64_sub (it_now it) st >? timeout) = false).
  { rewrite Z.gtb_ltb. apply Z.ltb_ge. exact Ht. }
  unfold loop_body; unfold_calls. rewrite H. simpl. rewrite Hpc. simpl. rewrite Hrem. simpl.
  rewrite Hgt. simpl. now rewrite <- !app_assoc.
Qed.

Lemma loop_body_spec ipc st lat it :
  exists r tr, turn_spec ipc st lat it r tr /\
               forall p, loop_body ipc st lat it p = (r, push p tr).
Proof.
  destruct (it_step it) as [e|d] eqn:Hs.
  - eexists _, _. split; [apply TurnStepError; eassumption|].
    intros p. now apply loop_body_step_error.
  - destruct (Z.eq_dec (it_pageCount it) ipc) as [Hpc|Hpc].
    2:{ eexists _, _. split; [apply (TurnPageCount _ _ _ _ d); assumption|].
        intros p. now apply (loop_body_page_count _ _ _ _ _ d). }
    destruct (Z.eq_dec (it_remaining it) (int_sub lat 1)) as [Hr|Hr].
    2:{ eexists _, _. split; [apply (TurnRemaining _ _ _ _ d); assumption|].
        intros p. now apply (loop_body_remaining _ _ _ _ _ d). }
    destruct d.
    + eexists _, _. split; [apply TurnDone; assumption|].
      intros p. now apply loop_body_done.
    + destruct (Z_lt_le_dec timeout (int64_sub (it_now it) st)) as [Ht|Ht].
      * eexists _, _. split; [apply TurnTimeout; assumption|].
        intros p. now apply loop_body_timeout.
      * eexists _, _. split; [apply TurnNext; assumption|].
        intros p. now apply loop_body_next.
Qed.

Lemma turn_spec_events ipc st lat it r tr :
  turn_spec ipc st lat it r tr -> Forall (fun e => loop_event e = true) tr.
Proof.
  intros H. destruct H; unfold turn_events, last_turn_events; simpl;
    repeat constructor.
Qed.

(** ** Runs of the loop *)

(** A run of the loop adds only loop events, fails only with a loop
    failure, and ends with a value only when some turn's step reported
    done, every turn before it having reported not done. *)
Lemma loop_spec ipc st its : forall lat,
  exists r tr,
    (forall p, loop ipc st lat its p = (r, push p tr)) /\
    Forall (fun e => loop_event e = true) tr /\
    (forall f, r = Halt f -> is_loop_failure f = true) /\
    (forall l, r = Val l ->
       exists pre it rest,
         its = pre ++ it :: rest /\ it_step it = inr true /\
         Forall (fun i => it_step i = inr false) pre) /\
    count is_log tr = match r with Halt _ => 1%nat | _ => 0%nat end.
Proof.
  induction its as [|it rest IH]; intros lat.
  - exists Starved, []. split; [|split; [|split; [|split]]].
    + intros p. simpl. unfold starve. now rewrite push_nil.
    + constructor.
    + discriminate.
    + discriminate.
    + reflexivity.
  - destruct (loop_body_spec ipc st lat it) as (r & tr & Hspec & Hrun).
    pose proof (turn_spec_events _ _ _ _ _ _ Hspec) as Hev.
    destruct Hspec.
    1-3,5:
      (eexists (Halt _), _; split;
       [|split; [exact Hev|split; [|split; [discriminate|reflexivity]]]];
       [intros p; simpl; unfold bind; now rewrite Hrun
       |intros f' Hf'; injection Hf' as <-; reflexivity]).
    + exists (Val (it_remaining it)), last_turn_events.
      split; [|split; [exact Hev|split; [discriminate|split]]].
      * intros p. simpl. unfold bind. rewrite Hrun. reflexivity.
      * intros _ _. exists [], it, rest. now repeat split.
      * reflexivity.
    + destruct (IH (it_remaining it))
        as (r' & tr' & Hrun' & Hev' & Hfail' & Hdone & Hlog).
      exists r', (turn_events ++ tr'). split; [|split; [|split; [|split]]].
      * intros p. simpl. unfold bind. rewrite Hrun.
        rewrite Hrun'. now rewrite push_push.
      * apply Forall_app. now split.
      * exact Hfail'.
      * intros l Hl.
        destruct (Hdone l Hl) as (pre & it' & rest' & -> & Hd & Hpre).
        exists (it :: pre), it', rest'. repeat split; trivial.
        now constructor.
      * rewrite count_app, Hlog. reflexivity.
Qed.

Lemma turn_passes_inv ipc st lat it :
  turn_passes ipc st lat it = true ->
  it_step it = inr false /\ it_pageCount it = ipc /\
  it_remaining it = int_sub lat 1 /\ int64_sub (it_now it) st <= timeout.
Proof.
  unfold turn_passes. destruct (it_step it) as [e|[|]]; try discriminate.
  intros H. apply andb_true_iff in H as [H Ht].
  apply andb_true_iff in H as [Hpc Hr].
  apply Z.eqb_eq in Hpc, Hr. apply Z.leb_le in Ht. auto.
Qed.

Lemma loop_chain ipc st rest pre : forall lat p,
  chain ipc st lat pre = true ->
  loop ipc st lat (pre ++ rest) p =
  loop ipc st (latest_after lat pre) rest (push p (turns_events pre)).
Proof.
  induction pre as [|it pre IH]; intros lat p H.
  - simpl. now rewrite push_nil.
  - simpl in H. apply andb_true_iff in H as [Hit Hpre].
    apply turn_passes_inv in Hit as (Hs & Hpc & Hr & Ht).
    simpl. unfold bind at 1.
    rewrite (loop_body_next _ _ _ _ _ Hs Hpc Hr Ht).
    rewrite (IH _ _ Hpre). now rewrite push_push.
Qed.

Lemma turns_events_loop pre : Forall (fun e => loop_event e = true) (turns_events pre).
Proof.
  induction pre as [|it pre IH]; simpl; [constructor|].
  unfold turns_events in *. simpl. repeat constructor. exact IH.
Qed.

(** While every turn passes, the remaining count goes down by one per
    turn (no wrap-around: the count starts inside [int] and the run is
    shorter than the distance to [int_min]). *)
Lemma chain_counts_down ipc st pre : forall lat,
  chain ipc st lat pre = true ->
  lat <= int_max -> int_min + Z.of_nat (List.length pre) <= lat ->
  latest_after lat pre = lat - Z.of_nat (List.length pre) /\
  forall i it, nth_error pre i = Some it ->
    it_pageCount it = ipc /\ it_remaining it = lat - Z.of_nat (S i).
Proof.
  induction pre as [|it pre IH]; intros lat H Hmax Hmin.
  - simpl. split; [lia|]. intros [|i] it'; discriminate.
  - simpl in H. apply andb_true_iff in H as [Hit Hpre].
    apply turn_passes_inv in Hit as (Hs & Hpc & Hr & Ht).
    cbn [List.length] in Hmin. rewrite Nat2Z.inj_succ in Hmin.
    rewrite int_sub_one in Hr by lia.
    destruct (IH (it_remaining it) Hpre) as [IH1 IH2]; [lia|lia|].
    cbn [latest_after List.length]. rewrite Nat2Z.inj_succ. split; [lia|].
    intros [|i] it' Hn; simpl in Hn.
    + injection Hn as <-. split; [assumption|lia].
    + destruct (IH2 i it' Hn) as [? ?]. split; [assumption|].
      rewrite Nat2Z.inj_succ in *. lia.
Qed.

(** ** The set-up (lines 18-54) *)

Lemma main_body_setup w :
  opened w -> main_body w start = check_conns w (at_check w).
Proof.
  intros [Hs Hd].
  unfold main_body, sql_open, db_ping, defer_close, connectHook, bind, emit,
    ret, start, at_check, captured, setup_events.
  simpl. rewrite Hs. simpl. rewrite Hd. simpl.
  now rewrite <- !app_assoc.
Qed.

Lemma main_body_session w s d :
  session_created w s d -> main_body w start = session w s d (at_check w).
Proof.
  intros (Ho & Hc & _). rewrite (main_body_setup w Ho).
  unfold check_conns, get_driverConns, bind. simpl. now rewrite Hc.
Qed.

Lemma main_body_stepping w s d :
  session_created w s d -> probe_passed w ->
  main_body w start =
  stepping w (w_pageCount0 w) (w_remaining0 w) (at_loop w s d).
Proof.
  intros Hs (Hp & Hpc & Hr & He). rewrite (main_body_session w s d Hs).
  destruct Hs as (_ & _ & Hb).
  assert (H1 : (w_pageCount0 w <=? 0) = false) by (apply Z.leb_gt; lia).
  assert (H2 : (w_remaining0 w <=? 0) = false) by (apply Z.leb_gt; lia).
  assert (H3 : (w_remaining0 w =? w_pageCount0 w) = true) by (apply Z.eqb_eq; lia).
  unfold session, conn_backup, backup_step, backup_pageCount,
    backup_remaining, bind, emit, ret, at_loop, probe_events, push.
  simpl. rewrite Hb. simpl. rewrite Hp. simpl. rewrite H1. simpl.
  rewrite H2, H3. simpl. reflexivity.
Qed.

(** ** Counting in the trace of the loop *)

Lemma count_turns_none f pre :
  (forall e, loop_event e = true -> f e = false) ->
  count f (turns_events pre) = 0%nat.
Proof.
  intros H. apply (count_none f loop_event); [exact H|apply turns_events_loop].
Qed.

Lemma count_turns_steps pre :
  count (is_step_of 1) (turns_events pre) = List.length pre.
Proof.
  induction pre as [|it pre IH]; [reflexivity|].
  unfold turns_events in *. simpl.
  change (count (is_step_of 1) (turn_events ++ concat (map (fun _ => turn_events) pre))
          = S (List.length pre)).
  rewrite count_app, IH. reflexivity.
Qed.

Lemma count_turns_now pre :
  count is_now (turns_events pre) = List.length pre.
Proof.
  induction pre as [|it pre IH]; [reflexivity|].
  unfold turns_events in *. simpl.
  change (count is_now (turn_events ++ concat (map (fun _ => turn_events) pre))
          = S (List.length pre)).
  rewrite count_app, IH. reflexivity.
Qed.

Lemma loop_event_not_finish e : loop_event e = true -> is_finish e = false.
Proof. destruct e; simpl; congruence. Qed.

Lemma loop_event_not_close e : loop_event e = true -> is_close e = false.
Proof. destruct e; simpl; congruence. Qed.

Lemma loop_event_not_probe e : loop_event e = true -> is_step_of 0 e = false.
Proof.
  destruct e; simpl; try congruence.
  intros H. apply Z.eqb_eq in H. now subst.
Qed.

(** ** The stepping loop, turn by turn *)



(** ** The final part and the whole run *)

Lemma finishing_page_count w ipc p :
  w_final_pageCount w <> ipc ->
  finishing w ipc p =
  (Halt (FinalPageCountChanged ipc (w_final_pageCount w)),
   push p [EvPageCount;
           EvLog (FinalPageCountChanged ipc (w_final_pageCount w)); EvExit 1]).
Proof.
  intros H. apply Z.eqb_neq in H.
  unfold finishing; unfold_calls. rewrite H. simpl. now rewrite <- !app_assoc.
Qed.

Lemma finishing_remaining w ipc p :
  w_final_pageCount w = ipc -> w_final_remaining w <> 0 ->
  finishing w ipc p =
  (Halt (BadFinalRemaining (w_final_remaining w)),
   push p [EvPageCount; EvRemaining;
           EvLog (BadFinalRemaining (w_final_remaining w)); EvExit 1]).
Proof.
  intros H H0. apply Z.eqb_eq in H. apply Z.eqb_neq in H0.
  unfold finishing; unfold_calls. rewrite H. simpl. rewrite H0. simpl. now rewrite <- !app_assoc.
Qed.

Lemma finishing_finish_error w ipc p e :
  w_final_pageCount w = ipc -> w_final_remaining w = 0 ->
  w_finish w = Some e ->
  finishing w ipc p =
  (Halt (FinishFailed e),
   push p [EvPageCount; EvRemaining; EvFinish;
           EvLog (FinishFailed e); EvExit 1]).
Proof.
  intros H H0 Hf. apply Z.eqb_eq in H. apply Z.eqb_eq in H0.
  unfold finishing; unfold_calls. rewrite H. simpl. rewrite H0. simpl. rewrite Hf.
  simpl. now rewrite <- !app_assoc.
Qed.

Lemma finishing_ok w ipc p :
  w_final_pageCount w = ipc -> w_final_remaining w = 0 ->
  w_finish w = None ->
  finishing w ipc p = (Val tt, push p [EvPageCount; EvRemaining; EvFinish]).
Proof.
  intros H H0 Hf. apply Z.eqb_eq in H. apply Z.eqb_eq in H0.
  unfold finishing; unfold_calls. rewrite H. simpl. rewrite H0. simpl. rewrite Hf.
  simpl. now rewrite <- !app_assoc.
Qed.

Lemma stepping_unfold w ipc irem p :
  stepping w ipc irem p =
  (loop ipc (w_start w) irem (w_iters w) ;;; finishing w ipc) (push p [EvNow]).
Proof. reflexivity. Qed.

Lemma main_of_halt w f p :
  main_body w start = (Halt f, p) -> main w = (Aborted f, events p).
Proof. intros H. unfold main. now rewrite H. Qed.

Lemma main_of_val w p :
  main_body w start = (Val tt, p) ->
  main w = (Returned, events p ++ map EvClose (deferred p) ++ [EvExit 0]).
Proof. intros H. unfold main. now rewrite H. Qed.

Lemma main_of_starved w p :
  main_body w start = (Starved, p) -> main w = (Waiting, events p).
Proof. intros H. unfold main. now rewrite H. Qed.

(** ** The deadline *)

(** A turn that ends in [log.Fatal] ends the run there. *)
Lemma turn_abort_run w s d pre it rest f tr :
  session_created w s d -> probe_passed w ->
  w_iters w = pre ++ it :: rest ->
  chain (w_pageCount0 w) (w_start w) (w_remaining0 w) pre = true ->
  (forall p, loop_body (w_pageCount0 w) (w_start w)
               (latest_after (w_remaining0 w) pre) it p = (Halt f, push p tr)) ->
  main w = (Aborted f, before_loop w s d ++ turns_events pre ++ tr).
Proof.
  intros Hs Hp Hits Hpre Hturn.
  apply main_of_halt with
    (p := push (push (push (at_loop w s d) [EvNow]) (turns_events pre)) tr).
  rewrite (main_body_stepping w s d Hs Hp), stepping_unfold.
  unfold bind at 1. rewrite Hits, (loop_chain _ _ _ _ _ _ Hpre).
  simpl. unfold bind at 1. now rewrite Hturn.
Qed.

(** C4, as the code has it.  The timeout is the constant 10, and the
    elapsed time is the difference between two clock readings in whole
    seconds, the one taken after the step and the one taken when the loop
    started.  Take a turn whose step did not report done, after which that
    difference is more than the timeout.  The run ends in [log.Fatal] in
    that turn: with the timeout failure, right after the clock reading,
    when the step has passed its two checks (and with the failure of the
    check otherwise).  No further step is issued and [Finish] is never
    called. *)
Theorem deadline_aborts w s d pre it rest :
  session_created w s d -> probe_passed w ->
  w_iters w = pre ++ it :: rest ->
  chain (w_pageCount0 w) (w_start w) (w_remaining0 w) pre = true ->
  it_step it = inr false ->
  timeout < int64_sub (it_now it) (w_start w) ->
  timeout = 10 /\
  (exists f, outcome w = Aborted f /\
             (f = TakingTooLong \/ is_step_check f = true)) /\
  (it_pageCount it = w_pageCount0 w ->
   it_remaining it = int_sub (latest_after (w_remaining0 w) pre) 1 ->
   main w = (Aborted TakingTooLong,
             before_loop w s d ++ turns_events pre ++ turn_events ++
             [EvLog TakingTooLong; EvExit 1])) /\
  count (is_step_of 1) (trace w) = S (List.length pre) /\
  count is_finish (trace w) = 0%nat.
Proof.
  intros Hs Hp Hits Hpre Hstep Hlate.
  split; [reflexivity|].
  assert (Hcount : forall f tr,
            main w = (Aborted f, before_loop w s d ++ turns_events pre ++ tr) ->
            count (is_step_of 1) tr = 1%nat -> count is_finish tr = 0%nat ->
            count (is_step_of 1) (trace w) = S (List.length pre) /\
            count is_finish (trace w) = 0%nat).
  { intros f tr Hmain H1 H0. unfold trace. rewrite Hmain. cbn [snd].
    rewrite !count_app, count_turns_steps, H1, H0.
    rewrite (count_turns_none is_finish pre loop_event_not_finish).
    split; [|reflexivity].
    change (count (is_step_of 1) (before_loop w s d)) with 0%nat. lia. }
  destruct (Z.eq_dec (it_pageCount it) (w_pageCount0 w)) as [Hpc|Hpc].
  2:{ pose proof (turn_abort_run w s d pre it rest _ _ Hs Hp Hits Hpre
                    (fun p => loop_body_page_count _ _ _ _ p false Hstep Hpc))
        as Hmain.
      split; [|split; [intros; contradiction|]].
      - eexists. unfold outcome. rewrite Hmain. split; [reflexivity|].
        right. reflexivity.
      - apply (Hcount _ _ Hmain); reflexivity. }
  destruct (Z.eq_dec (it_remaining it)
              (int_sub (latest_after (w_remaining0 w) pre) 1)) as [Hrem|Hrem].
  2:{ pose proof (turn_abort_run w s d pre it rest _ _ Hs Hp Hits Hpre
                    (fun p => loop_body_remaining _ _ _ _ p false Hstep Hpc Hrem))
        as Hmain.
      split; [|split; [intros; contradiction|]].
      - eexists. unfold outcome. rewrite Hmain. split; [reflexivity|].
        right. reflexivity.
      - apply (Hcount _ _ Hmain); reflexivity. }
  pose proof (turn_abort_run w s d pre it rest _ _ Hs Hp Hits Hpre
                (fun p => loop_body_timeout _ _ _ _ p Hstep Hpc Hrem Hlate))
    as Hmain.
  split; [|split; [intros; exact Hmain|]].
  - eexists. unfold outcome. rewrite Hmain. split; [reflexivity|].
    left. reflexivity.
  - apply (Hcount _ _ Hmain); reflexivity.
Qed.

(** Three pages; the second step returns 11 seconds after the start. *)
Lemma deadline_aborts_witness :
  (session_created slow_world 1%nat 2%nat /\ probe_passed slow_world /\
   timeout < int64_sub 111 100) /\
  main slow_world =
  (Aborted TakingTooLong,
   [EvOpen Src "source.db"; EvPing Src; EvOpen Dst "dest.db"; EvPing Dst;
    EvBackup 2%nat 1%nat; EvStep 0; EvPageCount; EvRemaining; EvNow;
    EvStep 1; EvPageCount; EvRemaining; EvNow;
    EvStep 1; EvPageCount; EvRemaining; EvNow;
    EvLog TakingTooLong; EvExit 1]) /\
  count is_finish (trace slow_world) = 0%nat.
Proof.
  assert (Hs : session_created slow_world 1%nat 2%nat)
    by (repeat split; reflexivity).
  assert (Hp : probe_passed slow_world) by (repeat split; reflexivity).
  assert (Ht : timeout < int64_sub 111 100) by reflexivity.
  split; [auto|].
  destruct (deadline_aborts slow_world 1%nat 2%nat
              [turn false 3 2 105] (turn false 3 1 111) [turn true 3 0 112]
              Hs Hp eq_refl eq_refl eq_refl Ht)
    as (_ & _ & Hmain & _ & Hfin).
  split; [exact (Hmain eq_refl eq_refl)|exact Hfin].
Defined.

(** C4 fails as stated: the first step returns 10.2 seconds after the loop
    started and does not report done; both instants read in whole seconds,
    the difference is 10, which is not more than the timeout; the run
    issues the next step and goes on to call [Finish] and return. *)
Lemma deadline_missed_within_the_second :
  timeout * 1000000000 < 110200000000 - 100000000000 /\
  it_step (turn false 2 1 (unix_seconds 110200000000)) = inr false /\
  int64_sub (unix_seconds 110200000000) (unix_seconds 100000000000) = 10 /\
  main truncated_clock_world =
  (Returned,
   [EvOpen Src "source.db"; EvPing Src; EvOpen Dst "dest.db"; EvPing Dst;
    EvBackup 2%nat 1%nat; EvStep 0; EvPageCount; EvRemaining; EvNow;
    EvStep 1; EvPageCount; EvRemaining; EvNow;
    EvStep 1; EvPageCount; EvRemaining;
    EvPageCount; EvRemaining; EvFinish;
    EvClose Dst; EvClose Src; EvExit 0]).
Proof. repeat split. Qed.

(** C10. In a turn the done check comes before the deadline check: when
    the step that reports done has passed its checks, the clock is not read
    again, so even if it then reads more than the timeout past the start
    time the run goes on to the final checks and, when they pass and
    [Finish] succeeds, returns normally.  The clock is read once before the
    loop and once in every earlier turn, and never in the last one. *)
Theorem done_skips_deadline w s d pre it rest :
  session_created w s d -> probe_passed w ->
  w_iters w = pre ++ it :: rest ->
  chain (w_pageCount0 w) (w_start w) (w_remaining0 w) pre = true ->
  it_step it = inr true ->
  it_pageCount it = w_pageCount0 w ->
  it_remaining it = int_sub (latest_after (w_remaining0 w) pre) 1 ->
  timeout < int64_sub (it_now it) (w_start w) ->
  w_final_pageCount w = w_pageCount0 w -> w_final_remaining w = 0 ->
  w_finish w = None ->
  main w = (Returned,
            before_loop w s d ++ turns_events pre ++ last_turn_events ++
            [EvPageCount; EvRemaining; EvFinish;
             EvClose Dst; EvClose Src; EvExit 0]) /\
  count is_now (trace w) = S (List.length pre) /\
  count is_now (last_turn_events ++
                [EvPageCount; EvRemaining; EvFinish;
                 EvClose Dst; EvClose Src; EvExit 0]) = 0%nat.
Proof.
  intros Hs Hp Hits Hpre Hstep Hpc Hrem _ Hfpc Hfrem Hfin.
  assert (Hmain : main w = (Returned,
            before_loop w s d ++ turns_events pre ++ last_turn_events ++
            [EvPageCount; EvRemaining; EvFinish;
             EvClose Dst; EvClose Src; EvExit 0])).
  { rewrite (main_of_val w
      (push (push (push (push (at_loop w s d) [EvNow]) (turns_events pre))
                  last_turn_events)
            [EvPageCount; EvRemaining; EvFinish])).
    - simpl. now rewrite <- !app_assoc.
    - rewrite (main_body_stepping w s d Hs Hp), stepping_unfold.
      unfold bind at 1. rewrite Hits, (loop_chain _ _ _ _ _ _ Hpre).
      simpl. unfold bind at 1.
      rewrite (loop_body_done _ _ _ _ _ Hstep Hpc Hrem).
      now apply finishing_ok. }
  split; [exact Hmain|]. split; [|reflexivity].
  unfold trace. rewrite Hmain. cbn [snd].
  unfold before_loop. rewrite !count_app, count_turns_now.
  unfold count. simpl. lia.
Qed.

(** Three pages; the last step returns 11 seconds after the start and
    reports done. *)
Lemma done_skips_deadline_witness :
  (session_created late_world 1%nat 2%nat /\ probe_passed late_world /\
   timeout < int64_sub 111 100) /\
  main late_world =
  (Returned,
   [EvOpen Src "source.db"; EvPing Src; EvOpen Dst "dest.db"; EvPing Dst;
    EvBackup 2%nat 1%nat; EvStep 0; EvPageCount; EvRemaining; EvNow;
    EvStep 1; EvPageCount; EvRemaining; EvNow;
    EvStep 1; EvPageCount; EvRemaining; EvNow;
    EvStep 1; EvPageCount; EvRemaining;
    EvPageCount; EvRemaining; EvFinish;
    EvClose Dst; EvClose Src; EvExit 0]).
Proof.
  assert (Hs : session_created late_world 1%nat 2%nat)
    by (repeat split; reflexivity).
  assert (Hp : probe_passed late_world) by (repeat split; reflexivity).
  assert (Ht : timeout < int64_sub 111 100) by reflexivity.
  split; [auto|].
  exact (proj1 (done_skips_deadline late_world 1%nat 2%nat
                  [turn false 3 2 105; turn false 3 1 110] (turn true 3 0 111) []
                  Hs Hp eq_refl eq_refl eq_refl eq_refl eq_refl Ht
                  eq_refl eq_refl eq_refl)).
Defined.

(** ** Every way a run can go *)

Lemma setup_cases w :
  (exists f tr, setup_abort w f tr /\ main w = (Aborted f, tr)) \/
  (exists s d, session_created w s d).
Proof.
  destruct (answer (w_open_src w)) as [e|] eqn:Hs.
  { left. eexists _, _. split; [apply SetupOpenSrc; eassumption|].
    unfold main, main_body, sql_open, connectHook, bind, emit, ret, fatal, start.
    simpl. rewrite Hs. reflexivity. }
  destruct (answer (w_open_dst w)) as [e|] eqn:Hd.
  { left. eexists _, _. split; [apply SetupOpenDst; eassumption|].
    unfold main, main_body, sql_open, db_ping, defer_close, connectHook,
      bind, emit, ret, fatal, start.
    simpl. rewrite Hs. simpl. rewrite Hd. reflexivity. }
  assert (Ho : opened w) by (split; assumption).
  destruct (Nat.eq_dec (List.length (captured w)) 2) as [Hlen|Hlen].
  2:{ left. eexists _, _. split; [apply SetupCount; assumption|].
      apply main_of_halt with
        (p := push (at_check w)
                [EvLog (WrongConnCount (List.length (captured w))); EvExit 1]).
      rewrite (main_body_setup w Ho).
      unfold check_conns, get_driverConns, bind, fatal. simpl.
      destruct (captured w) as [|c0 [|c1 [|c2 l]]]; try reflexivity.
      now elim Hlen. }
  destruct (captured w) as [|c0 [|c1 [|c2 l]]] eqn:Hc; try discriminate Hlen.
  destruct c0 as [s|].
  2:{ left. eexists _, _. split; [eapply SetupNilSrc; eassumption|].
      apply main_of_halt with (p := push (at_check w) [EvLog NilSourceConn; EvExit 1]).
      rewrite (main_body_setup w Ho).
      unfold check_conns, get_driverConns, bind, fatal. simpl.
      now rewrite Hc. }
  destruct c1 as [d|].
  2:{ left. eexists _, _. split; [eapply SetupNilDst; eassumption|].
      apply main_of_halt with (p := push (at_check w) [EvLog NilDestConn; EvExit 1]).
      rewrite (main_body_setup w Ho).
      unfold check_conns, get_driverConns, bind, fatal. simpl.
      now rewrite Hc. }
  destruct (w_backup w) as [e|] eqn:Hb.
  - left. eexists _, _. split; [eapply SetupBackup; eassumption|].
    apply main_of_halt with
      (p := push (at_check w) [EvBackup d s; EvLog (BackupFailed e); EvExit 1]).
    rewrite (main_body_setup w Ho).
    unfold check_conns, get_driverConns, bind, fatal. simpl.
    rewrite Hc. unfold session, conn_backup, bind, emit, ret, fatal, push.
    simpl. rewrite Hb. reflexivity.
  - right. exists s, d. repeat split; assumption.
Qed.

Lemma probe_cases w s d :
  session_created w s d ->
  (exists f tr, probe_abort w f tr /\
                main w = (Aborted f, setup_events w ++ EvBackup d s :: tr)) \/
  probe_passed w.
Proof.
  intros Hs. pose proof (main_body_session w s d Hs) as Hmain.
  destruct Hs as (_ & _ & Hb).
  assert (Hrun : forall f tr,
            session w s d (at_check w) = (Halt f, push (at_check w) (EvBackup d s :: tr)) ->
            main w = (Aborted f, setup_events w ++ EvBackup d s :: tr)).
  { intros f tr H. apply main_of_halt with (p := push (at_check w) (EvBackup d s :: tr)).
    now rewrite Hmain. }
  destruct (w_probe w) as [e|[|]] eqn:Hp.
  - left. eexists _, _. split; [apply ProbeError; eassumption|].
    apply Hrun. unfold session, conn_backup, backup_step, bind, emit, ret,
      fatal, push. simpl. rewrite Hb. simpl. rewrite Hp. reflexivity.
  - left. eexists _, _. split; [apply ProbeDone; eassumption|].
    apply Hrun. unfold session, conn_backup, backup_step, bind, emit, ret,
      fatal, push. simpl. rewrite Hb. simpl. rewrite Hp. reflexivity.
  - destruct (Z_le_gt_dec (w_pageCount0 w) 0) as [Hpc|Hpc].
    { left. eexists _, _. split; [apply ProbePageCount; assumption|].
      apply Hrun. apply Z.leb_le in Hpc.
      unfold session, conn_backup, backup_step, backup_pageCount, bind,
        emit, ret, fatal, push.
      simpl. rewrite Hb. simpl. rewrite Hp. simpl. rewrite Hpc. reflexivity. }
    assert (Hpc' : (w_pageCount0 w <=? 0) = false) by (apply Z.leb_gt; lia).
    destruct (Z_le_gt_dec (w_remaining0 w) 0) as [Hr|Hr].
    { left. eexists _, _. split; [apply ProbeRemaining; (assumption || lia)|].
      apply Hrun. apply Z.leb_le in Hr.
      unfold session, conn_backup, backup_step, backup_pageCount,
        backup_remaining, bind, emit, ret, fatal, push.
      simpl. rewrite Hb. simpl. rewrite Hp. simpl. rewrite Hpc'. simpl.
      rewrite Hr. reflexivity. }
    assert (Hr' : (w_remaining0 w <=? 0) = false) by (apply Z.leb_gt; lia).
    destruct (Z.eq_dec (w_remaining0 w) (w_pageCount0 w)) as [He|He].
    + right. repeat split; (assumption || lia).
    + left. eexists _, _.
      split; [apply ProbeMismatch; (assumption || lia)|].
      apply Hrun. apply Z.eqb_neq in He.
      unfold session, conn_backup, backup_step, backup_pageCount,
        backup_remaining, bind, emit, ret, fatal, push.
      simpl. rewrite Hb. simpl. rewrite Hp. simpl. rewrite Hpc'. simpl.
      rewrite Hr', He. reflexivity.
Qed.

Lemma finishing_cases w ipc :
  exists o tl,
    finish_spec w ipc o tl /\
    forall wm p,
      deferred p = [Dst; Src] ->
      main_body wm start = finishing w ipc p ->
      main wm = (o, events p ++ tl).
Proof.
  destruct (Z.eq_dec (w_final_pageCount w) ipc) as [Hpc|Hpc].
  2:{ eexists _, _. split; [apply FinPageCount; assumption|].
      intros wm p _ H. rewrite (finishing_page_count w ipc p Hpc) in H.
      now rewrite (main_of_halt wm _ _ H). }
  destruct (Z.eq_dec (w_final_remaining w) 0) as [Hr|Hr].
  2:{ eexists _, _. split; [apply FinRemaining; assumption|].
      intros wm p _ H. rewrite (finishing_remaining w ipc p Hpc Hr) in H.
      now rewrite (main_of_halt wm _ _ H). }
  destruct (w_finish w) as [e|] eqn:Hf.
  - eexists _, _. split; [apply FinError; eassumption|].
    intros wm p _ H. rewrite (finishing_finish_error w ipc p e Hpc Hr Hf) in H.
    now rewrite (main_of_halt wm _ _ H).
  - eexists _, _. split; [apply FinOk; assumption|].
    intros wm p Hd H. rewrite (finishing_ok w ipc p Hpc Hr Hf) in H.
    rewrite (main_of_val wm _ H). simpl. rewrite Hd. simpl.
    now rewrite <- app_assoc.
Qed.

(** Once the probe has passed, the run is the loop followed, when the loop
    exits, by the final part. *)
Lemma stepping_cases w s d :
  session_created w s d -> probe_passed w ->
  exists r tr,
    (forall p, loop (w_pageCount0 w) (w_start w) (w_remaining0 w) (w_iters w) p
               = (r, push p tr)) /\
    Forall (fun e => loop_event e = true) tr /\
    count is_log tr = match r with Halt _ => 1%nat | _ => 0%nat end /\
    match r with
    | Val _ =>
        (exists pre it rest,
            w_iters w = pre ++ it :: rest /\ it_step it = inr true /\
            Forall (fun i => it_step i = inr false) pre) /\
        exists o tl, finish_spec w (w_pageCount0 w) o tl /\
                     main w = (o, before_loop w s d ++ tr ++ tl)
    | Halt f =>
        is_loop_failure f = true /\
        main w = (Aborted f, before_loop w s d ++ tr)
    | Starved => main w = (Waiting, before_loop w s d ++ tr)
    end.
Proof.
  intros Hs Hp.
  pose proof (main_body_stepping w s d Hs Hp) as Hmain.
  rewrite stepping_unfold in Hmain.
  destruct (loop_spec (w_pageCount0 w) (w_start w) (w_iters w) (w_remaining0 w))
    as (r & tr & Hrun & Hev & Hfail & Hdone & Hlog).
  exists r, tr. split; [exact Hrun|]. split; [exact Hev|].
  split; [exact Hlog|].
  unfold bind in Hmain. rewrite Hrun in Hmain.
  destruct r as [l|f|].
  - split; [now apply (Hdone l)|].
    destruct (finishing_cases w (w_pageCount0 w)) as (o & tl & Hspec & Hfin).
    exists o, tl. split; [exact Hspec|].
    rewrite (Hfin w (push (push (at_loop w s d) [EvNow]) tr) eq_refl Hmain). simpl.
    unfold before_loop. simpl. now rewrite <- ?app_assoc.
  - split; [now apply Hfail|].
    rewrite (main_of_halt w _ _ Hmain). simpl.
    unfold before_loop. simpl. now rewrite <- ?app_assoc.
  - rewrite (main_of_starved w _ Hmain). simpl.
    unfold before_loop. simpl. now rewrite <- ?app_assoc.
Qed.

(** ** Counting calls over a whole run *)

Lemma setup_abort_counts w f tr :
  setup_abort w f tr ->
  is_early_failure f = true /\ count is_finish tr = 0%nat /\
  count is_close tr = 0%nat /\ count is_step tr = 0%nat.
Proof. intros H. destruct H; repeat split; reflexivity. Qed.

Lemma probe_abort_counts w f tr :
  probe_abort w f tr ->
  is_early_failure f = true /\ count is_finish tr = 0%nat /\
  count is_close tr = 0%nat /\ count (is_step_of 1) tr = 0%nat /\
  exists tl, tr = EvStep 0 :: tl /\ count (is_step_of 0) tl = 0%nat.
Proof.
  intros H. destruct H; repeat split; try reflexivity;
    eexists; split; reflexivity.
Qed.

Lemma finish_spec_counts w ipc o tl :
  finish_spec w ipc o tl ->
  count (is_step_of 0) tl = 0%nat /\
  ((count is_finish tl = 1%nat /\
    (o = Returned \/ exists e, o = Aborted (FinishFailed e))) \/
   (count is_finish tl = 0%nat /\ exists f, o = Aborted f /\
    forall e, f <> FinishFailed e)).
Proof.
  intros H. destruct H; (split; [reflexivity|]).
  - right. split; [reflexivity|]. eexists. split; [reflexivity|discriminate].
  - right. split; [reflexivity|]. eexists. split; [reflexivity|discriminate].
  - left. split; [reflexivity|]. right. now exists e.
  - left. split; [reflexivity|]. now left.
Qed.

(** [Finish] is called once when the run returns or fails in [Finish]
    itself, and is not called otherwise. *)
Lemma finish_count w :
  (count is_finish (trace w) = 1%nat /\
   (outcome w = Returned \/ exists e, outcome w = Aborted (FinishFailed e))) \/
  (count is_finish (trace w) = 0%nat /\ outcome w <> Returned /\
   forall e, outcome w <> Aborted (FinishFailed e)).
Proof.
  unfold trace, outcome.
  destruct (setup_cases w) as [(f & tr & Hab & Hmain)|(s & d & Hs)].
  { rewrite Hmain. cbn [fst snd].
    destruct (setup_abort_counts w f tr Hab) as (Hf & Hfin & _).
    right. split; [exact Hfin|]. split; [discriminate|].
    intros e He. injection He as ->. discriminate. }
  destruct (probe_cases w s d Hs) as [(f & tr & Hab & Hmain)|Hp].
  { rewrite Hmain. cbn [fst snd].
    destruct (probe_abort_counts w f tr Hab) as (Hf & Hfin & _).
    right. split; [|split; [discriminate|]].
    - change (count is_finish ((setup_events w ++ [EvBackup d s]) ++ tr) = 0%nat).
      rewrite count_app, Hfin. reflexivity.
    - intros e He. injection He as ->. discriminate. }
  destruct (stepping_cases w s d Hs Hp) as (r & tr & _ & Hev & _ & Hr).
  pose proof (count_none is_finish loop_event tr loop_event_not_finish Hev) as Htr.
  destruct r as [l|f|].
  - destruct Hr as (_ & o & tl & Hspec & Hmain). rewrite Hmain. cbn [fst snd].
    rewrite !count_app, Htr.
    destruct (finish_spec_counts w _ o tl Hspec) as (_ & [(Hc & Ho)|(Hc & f & -> & Hf)]).
    + left. rewrite Hc. split; [reflexivity|exact Ho].
    + right. rewrite Hc. split; [reflexivity|]. split; [discriminate|].
      intros e He. injection He as ->. now apply (Hf e).
  - destruct Hr as (Hf & Hmain). rewrite Hmain. cbn [fst snd].
    rewrite !count_app, Htr. right. split; [reflexivity|].
    split; [discriminate|]. intros e He. injection He as ->. discriminate.
  - rewrite Hr. cbn [fst snd]. rewrite !count_app, Htr. right.
    split; [reflexivity|]. split; discriminate.
Qed.

(** After [log.Fatal] no deferred [Close] has run; when [main] returns,
    both have, the destination first. *)
Lemma close_count w :
  (outcome w = Returned /\ count (is_close_of Src) (trace w) = 1%nat /\
   count (is_close_of Dst) (trace w) = 1%nat) \/
  (outcome w <> Returned /\ count is_close (trace w) = 0%nat).
Proof.
  unfold trace, outcome.
  destruct (setup_cases w) as [(f & tr & Hab & Hmain)|(s & d & Hs)].
  { rewrite Hmain. cbn [fst snd].
    destruct (setup_abort_counts w f tr Hab) as (_ & _ & Hc & _).
    right. split; [discriminate|exact Hc]. }
  destruct (probe_cases w s d Hs) as [(f & tr & Hab & Hmain)|Hp].
  { rewrite Hmain. cbn [fst snd].
    destruct (probe_abort_counts w f tr Hab) as (_ & _ & Hc & _).
    right. split; [discriminate|].
    change (count is_close ((setup_events w ++ [EvBackup d s]) ++ tr) = 0%nat).
    rewrite count_app, Hc. reflexivity. }
  destruct (stepping_cases w s d Hs Hp) as (r & tr & _ & Hev & _ & Hr).
  assert (Hsrc : forall e, loop_event e = true -> is_close_of Src e = false)
    by (intros e; destruct e as [| |[|]| | | | | | | |]; simpl; congruence).
  assert (Hdst : forall e, loop_event e = true -> is_close_of Dst e = false)
    by (intros e; destruct e as [| |[|]| | | | | | | |]; simpl; congruence).
  pose proof (count_none is_close loop_event tr loop_event_not_close Hev) as Htr.
  pose proof (count_none _ loop_event tr Hsrc Hev) as Htr1.
  pose proof (count_none _ loop_event tr Hdst Hev) as Htr2.
  destruct r as [l|f|].
  - destruct Hr as (_ & o & tl & Hspec & Hmain). rewrite Hmain. cbn [fst snd].
    rewrite !count_app, Htr, Htr1, Htr2.
    destruct Hspec; [right|right|right|left];
      (split; [discriminate || reflexivity|]); try reflexivity.
    split; reflexivity.
  - destruct Hr as (Hf & Hmain). rewrite Hmain. cbn [fst snd].
    rewrite !count_app, Htr. right. split; [discriminate|reflexivity].
  - rewrite Hr. cbn [fst snd]. rewrite !count_app, Htr. right.
    split; [discriminate|reflexivity].
Qed.


(** ** The probe *)

(** C2. Once the session exists, the next call is the zero-page step, the
    only one of the run, and no step precedes it.  If it reports done, or
    the initial page count or the initial remaining count is not positive,
    or the two differ, the run ends in [log.Fatal] without any one-page
    step.  Otherwise the loop starts with the captured page count as the
    reference and the captured remaining count as the previous count. *)
Theorem probe_stage w s d :
  session_created w s d ->
  (exists post,
      trace w = setup_events w ++ [EvBackup d s; EvStep 0] ++ post /\
      count (is_step_of 0) post = 0%nat) /\
  (forall isDone, w_probe w = inr isDone ->
     isDone = true \/ w_pageCount0 w <= 0 \/ w_remaining0 w <= 0 \/
     w_remaining0 w <> w_pageCount0 w ->
     exists f, outcome w = Aborted f /\ is_probe_check f = true /\
               count (is_step_of 1) (trace w) = 0%nat) /\
  (w_probe w = inr false -> 0 < w_pageCount0 w -> 0 < w_remaining0 w ->
   w_remaining0 w = w_pageCount0 w ->
   main_body w start =
   (loop (w_pageCount0 w) (w_start w) (w_remaining0 w) (w_iters w) ;;;
    finishing w (w_pageCount0 w))
     {| driverConns := captured w; deferred := [Dst; Src];
        events := before_loop w s d |}).
Proof.
  intros Hs. split; [|split].
  - unfold trace.
    destruct (probe_cases w s d Hs) as [(f & tr & Hab & Hmain)|Hp].
    + destruct (probe_abort_counts w f tr Hab)
        as (_ & _ & _ & _ & tl & -> & Htl).
      exists tl. rewrite Hmain. split; [reflexivity|exact Htl].
    + destruct (stepping_cases w s d Hs Hp) as (r & tr & _ & Hev & _ & Hr).
      pose proof (count_none _ loop_event tr loop_event_not_probe Hev) as Htr.
      destruct r as [l|f|].
      * destruct Hr as (_ & o & tl & Hspec & Hmain).
        exists ([EvPageCount; EvRemaining; EvNow] ++ tr ++ tl).
        rewrite Hmain. split; [reflexivity|].
        rewrite !count_app, Htr.
        now rewrite (proj1 (finish_spec_counts w _ o tl Hspec)).
      * destruct Hr as (_ & Hmain).
        exists ([EvPageCount; EvRemaining; EvNow] ++ tr).
        rewrite Hmain. split; [reflexivity|].
        now rewrite !count_app, Htr.
      * exists ([EvPageCount; EvRemaining; EvNow] ++ tr).
        rewrite Hr. split; [reflexivity|].
        now rewrite !count_app, Htr.
  - intros isDone Hprobe Hbad. unfold trace, outcome.
    destruct (probe_cases w s d Hs) as [(f & tr & Hab & Hmain)|Hp].
    + exists f. rewrite Hmain. cbn [fst snd]. split; [reflexivity|]. split.
      * destruct Hab; try reflexivity. congruence.
      * destruct (probe_abort_counts w f tr Hab) as (_ & _ & _ & Hone & _).
        change (count (is_step_of 1) ((setup_events w ++ [EvBackup d s]) ++ tr)
                = 0%nat).
        rewrite count_app, Hone. reflexivity.
    + destruct Hp as (Hp & Hpc & Hr & He). exfalso.
      destruct Hbad as [->|[H|[H|H]]]; [congruence|lia|lia|contradiction].
  - intros Hp Hpc Hr He.
    rewrite (main_body_stepping w s d Hs (conj Hp (conj Hpc (conj Hr He)))).
    rewrite stepping_unfold. reflexivity.
Qed.

(** A probe that reports done. *)
Lemma probe_stage_witness :
  session_created done_probe_world 1%nat 2%nat /\
  exists f, outcome done_probe_world = Aborted f /\
            is_probe_check f = true /\
            count (is_step_of 1) (trace done_probe_world) = 0%nat.
Proof.
  assert (Hs : session_created done_probe_world 1%nat 2%nat)
    by (repeat split; reflexivity).
  split; [exact Hs|].
  exact (proj1 (proj2 (probe_stage done_probe_world 1%nat 2%nat Hs))
           true eq_refl (or_introl eq_refl)).
Defined.

(** ** Leaving the loop *)

(** C3. The loop returns only when some turn's step reported done (every
    earlier turn having reported not done).  The final page count is then
    compared with the initial one and the final remaining count with 0; a
    difference ends the run in [log.Fatal] with [Finish] never called.
    When both hold, [Finish] is called right after the two readings, once
    in the whole run, and the run returns normally if it succeeds.  A run
    whose loop does not return never calls [Finish] and does not return. *)
Theorem loop_exit_then_finish w s d r p :
  session_created w s d -> probe_passed w ->
  loop (w_pageCount0 w) (w_start w) (w_remaining0 w) (w_iters w)
    (push (at_loop w s d) [EvNow]) = (r, p) ->
  match r with
  | Val _ =>
      (exists pre it rest,
          w_iters w = pre ++ it :: rest /\ it_step it = inr true /\
          Forall (fun i => it_step i = inr false) pre) /\
      count is_finish (events p) = 0%nat /\
      (w_final_pageCount w <> w_pageCount0 w ->
       main w =
       (Aborted (FinalPageCountChanged (w_pageCount0 w) (w_final_pageCount w)),
        events p ++
        [EvPageCount;
         EvLog (FinalPageCountChanged (w_pageCount0 w) (w_final_pageCount w));
         EvExit 1])) /\
      (w_final_pageCount w = w_pageCount0 w -> w_final_remaining w <> 0 ->
       main w =
       (Aborted (BadFinalRemaining (w_final_remaining w)),
        events p ++
        [EvPageCount; EvRemaining;
         EvLog (BadFinalRemaining (w_final_remaining w)); EvExit 1])) /\
      (w_final_pageCount w = w_pageCount0 w -> w_final_remaining w = 0 ->
       count is_finish (trace w) = 1%nat /\
       main w =
       match w_finish w with
       | None =>
           (Returned,
            events p ++ [EvPageCount; EvRemaining; EvFinish;
                         EvClose Dst; EvClose Src; EvExit 0])
       | Some e =>
           (Aborted (FinishFailed e),
            events p ++ [EvPageCount; EvRemaining; EvFinish;
                         EvLog (FinishFailed e); EvExit 1])
       end)
  | _ => outcome w <> Returned /\ count is_finish (trace w) = 0%nat
  end.
Proof.
  intros Hs Hp Hloop.
  destruct (stepping_cases w s d Hs Hp) as (r' & tr & Hrun & Hev & _ & Hr).
  rewrite Hrun in Hloop. injection Hloop as <- <-.
  pose proof (count_none is_finish loop_event tr loop_event_not_finish Hev) as Htr.
  assert (Hp0 : events (push (push (at_loop w s d) [EvNow]) tr)
                = before_loop w s d ++ tr) by reflexivity.
  rewrite Hp0.
  destruct r' as [l|f|].
  - destruct Hr as (Hdone & o & tl & Hspec & Hmain).
    split; [exact Hdone|]. split; [now rewrite count_app, Htr|].
    unfold trace. rewrite Hmain. cbn [snd]. rewrite <- !app_assoc.
    split; [|split]; intros; destruct Hspec; try congruence; try contradiction.
    + split; [now rewrite !count_app, Htr|].
      rewrite H3. now rewrite <- ?app_assoc.
    + split; [now rewrite !count_app, Htr|].
      rewrite H3. reflexivity.
  - destruct Hr as (_ & Hmain). unfold outcome, trace. rewrite Hmain.
    split; [discriminate|]. cbn [snd]. now rewrite count_app, Htr.
  - unfold outcome, trace. rewrite Hr.
    split; [discriminate|]. cbn [snd]. now rewrite count_app, Htr.
Qed.

(** One page, copied by the first step. *)
Lemma loop_exit_then_finish_witness :
  (session_created one_page_world 1%nat 2%nat /\
   probe_passed one_page_world) /\
  count is_finish (trace one_page_world) = 1%nat /\
  main one_page_world =
  (Returned,
   [EvOpen Src "source.db"; EvPing Src; EvOpen Dst "dest.db"; EvPing Dst;
    EvBackup 2%nat 1%nat; EvStep 0; EvPageCount; EvRemaining; EvNow;
    EvStep 1; EvPageCount; EvRemaining;
    EvPageCount; EvRemaining; EvFinish;
    EvClose Dst; EvClose Src; EvExit 0]).
Proof.
  assert (Hs : session_created one_page_world 1%nat 2%nat)
    by (repeat split; reflexivity).
  assert (Hp : probe_passed one_page_world) by (repeat split; reflexivity).
  split; [auto|].
  exact (proj2 (proj2 (proj2 (proj2
    (loop_exit_then_finish one_page_world 1%nat 2%nat (Val 0)
       {| driverConns := [Some 1%nat; Some 2%nat];
          deferred := [Dst; Src];
          events :=
            [EvOpen Src "source.db"; EvPing Src; EvOpen Dst "dest.db";
             EvPing Dst; EvBackup 2%nat 1%nat; EvStep 0; EvPageCount;
             EvRemaining; EvNow; EvStep 1; EvPageCount; EvRemaining] |}
       Hs Hp eq_refl)))) eq_refl eq_refl).
Defined.

(** ** Finalizing the session *)

(** C5, as the code has it.  [Finish] is called at most once in a run: once
    when the run returns normally or fails in [Finish] itself (the loop
    has exited and both final checks have passed), and not at all when the
    run ends in any other failure, session or not. *)
Theorem finish_only_after_final_checks w :
  (count is_finish (trace w) <= 1)%nat /\
  (count is_finish (trace w) = 1%nat <->
   outcome w = Returned \/ exists e, outcome w = Aborted (FinishFailed e)) /\
  (forall f, outcome w = Aborted f -> (forall e, f <> FinishFailed e) ->
             count is_finish (trace w) = 0%nat).
Proof.
  destruct (finish_count w) as [(Hc & Ho)|(Hc & Hr & Hf)].
  - split; [lia|]. split; [tauto|].
    intros f Hout Hne. destruct Ho as [Ho|(e & Ho)]; [congruence|].
    rewrite Ho in Hout. injection Hout as <-. now elim (Hne e).
  - split; [lia|]. split.
    + split; [lia|]. intros [Ho|(e & Ho)]; [contradiction|now elim (Hf e)].
    + intros; exact Hc.
Qed.

(** C5 fails as stated: a session is created, the first one-page step
    fails, and the run ends without calling [Finish]. *)
Lemma finish_skipped_on_step_failure :
  count is_backup (trace failing_step_world) = 1%nat /\
  outcome failing_step_world = Aborted (StepFailed "disk I/O error"%string) /\
  count is_finish (trace failing_step_world) <> 1%nat.
Proof. repeat split. discriminate. Qed.

(** ** Closing the handles *)

(** C6 at a failing run.  Both handles are open and both [Close] calls are
    deferred, only one connection was captured: the run ends in
    [log.Fatal] at line 45 and neither handle is closed. *)
Theorem close_skipped_on_fatal_exit :
  main one_conn_world =
  (Aborted (WrongConnCount 1),
   [EvOpen Src "source.db"; EvPing Src; EvOpen Dst "dest.db"; EvPing Dst;
    EvLog (WrongConnCount 1); EvExit 1]) /\
  deferred (snd (main_body one_conn_world start)) = [Dst; Src] /\
  count is_close (trace one_conn_world) = 0%nat.
Proof. repeat split. Qed.

(** ** The liveness probes *)



(** ** The captured connections *)

(** C9. With both handles open, if the hook has captured a number of
    connections other than 2, or one of the two is nil, the run ends in one
    of the failures of lines 44-54 right after the second [Ping]: no
    session is ever requested. *)
Theorem conn_check_aborts w :
  opened w ->
  List.length (captured w) <> 2%nat \/ In None (captured w) ->
  exists f, is_config_error f = true /\
            main w = (Aborted f, setup_events w ++ [EvLog f; EvExit 1]) /\
            count is_backup (trace w) = 0%nat.
Proof.
  intros [Hos Hod] Hbad.
  destruct (setup_cases w) as [(f & tr & Hab & Hmain)|(s & d & Hs)].
  - destruct Hab as [e He|e _ He| | | |s d e _ Hc _]; try congruence.
    + eexists. split; [|split; [exact Hmain|unfold trace; now rewrite Hmain]].
      reflexivity.
    + eexists. split; [|split; [exact Hmain|unfold trace; now rewrite Hmain]].
      reflexivity.
    + eexists. split; [|split; [exact Hmain|unfold trace; now rewrite Hmain]].
      reflexivity.
    + exfalso. rewrite Hc in Hbad.
      destruct Hbad as [H|[H|[H|[]]]]; [now elim H|discriminate|discriminate].
  - exfalso. destruct Hs as (_ & Hc & _). rewrite Hc in Hbad.
    destruct Hbad as [H|[H|[H|[]]]]; [now elim H|discriminate|discriminate].
Qed.

(** Only the source connection is captured. *)
Lemma conn_check_aborts_witness :
  (opened one_conn_world /\ List.length (captured one_conn_world) <> 2%nat) /\
  exists f, is_config_error f = true /\
            main one_conn_world =
              (Aborted f, setup_events one_conn_world ++ [EvLog f; EvExit 1]) /\
            count is_backup (trace one_conn_world) = 0%nat.
Proof.
  assert (Ho : opened one_conn_world) by (split; reflexivity).
  assert (Hn : List.length (captured one_conn_world) <> 2%nat) by discriminate.
  split; [auto|].
  exact (conn_check_aborts one_conn_world Ho (or_introl Hn)).
Defined.

(** ** An empty source *)

(** C7, as the code has it.  On a source of no pages the engine's probe
    reports done with a page count of 0, and the run then ends at the done
    check of line 65, right after the zero-page step: the counts are never
    read, so the checks of lines 71 and 75 are not reached, no page is
    copied and [Finish] is not called. *)
Theorem empty_source_stops_at_done_check w s d :
  session_created w s d -> empty_source w ->
  w_probe w = inr true /\ w_pageCount0 w = 0 /\
  main w = (Aborted UnexpectedlyDone,
            setup_events w ++
            [EvBackup d s; EvStep 0; EvLog UnexpectedlyDone; EvExit 1]) /\
  count is_accessor (trace w) = 0%nat /\
  count (is_step_of 1) (trace w) = 0%nat /\
  count is_finish (trace w) = 0%nat.
Proof.
  intros Hs (Hp & Hpc & _). simpl in Hp, Hpc.
  assert (Hmain : main w = (Aborted UnexpectedlyDone,
            setup_events w ++
            [EvBackup d s; EvStep 0; EvLog UnexpectedlyDone; EvExit 1])).
  { destruct (probe_cases w s d Hs) as [(f & tr & Hab & Hmain)|Hpass].
    - destruct Hab; congruence.
    - destruct Hpass as (Hpass & _). congruence. }
  split; [exact Hp|]. split; [exact Hpc|]. split; [exact Hmain|].
  unfold trace. rewrite Hmain. repeat split.
Qed.

(** The engine of the spec on a source of no pages. *)
Lemma empty_source_stops_at_done_check_witness :
  (session_created (SpecEngine.world 0) 1%nat 2%nat /\
   empty_source (SpecEngine.world 0)) /\
  main (SpecEngine.world 0) =
  (Aborted UnexpectedlyDone,
   [EvOpen Src "source.db"; EvPing Src; EvOpen Dst "dest.db"; EvPing Dst;
    EvBackup 2%nat 1%nat; EvStep 0; EvLog UnexpectedlyDone; EvExit 1]).
Proof.
  assert (Hs : session_created (SpecEngine.world 0) 1%nat 2%nat)
    by (repeat split; reflexivity).
  assert (He : empty_source (SpecEngine.world 0)) by (repeat split; reflexivity).
  split; [auto|].
  exact (proj1 (proj2 (proj2
           (empty_source_stops_at_done_check (SpecEngine.world 0) 1%nat 2%nat Hs He)))).
Defined.

(** C7 fails as stated: on the empty source the run ends in a failure that
    is not one of the two positivity checks, and the counts they test are
    never read. *)
Lemma empty_source_not_positivity_check :
  outcome (SpecEngine.world 0) = Aborted UnexpectedlyDone /\
  is_positivity_check UnexpectedlyDone = false /\
  count is_accessor (trace (SpecEngine.world 0)) = 0%nat.
Proof. repeat split. Qed.


(** * More properties of [main] *)

(** ** The loop, from its result *)

Lemma turn_passes_intro ipc st lat it :
  it_step it = inr false -> it_pageCount it = ipc ->
  it_remaining it = int_sub lat 1 -> int64_sub (it_now it) st <= timeout ->
  turn_passes ipc st lat it = true.
Proof.
  intros Hs Hpc Hr Ht. unfold turn_passes. rewrite Hs.
  apply Z.eqb_eq in Hpc, Hr. apply Z.leb_le in Ht.
  now rewrite Hpc, Hr, Ht.
Qed.

Lemma turns_events_cons it pre :
  turns_events (it :: pre) = turn_events ++ turns_events pre.
Proof. reflexivity. Qed.

(** However the loop ends, it has gone through a run of passing turns; then
    either the record ends, or one more turn ends the loop. *)
Lemma loop_inv ipc st its : forall lat p r p',
  loop ipc st lat its p = (r, p') ->
  exists pre,
    chain ipc st lat pre = true /\
    ((its = pre /\ r = Starved /\ p' = push p (turns_events pre)) \/
     (exists it rest rb tr,
         its = pre ++ it :: rest /\
         turn_spec ipc st (latest_after lat pre) it rb tr /\
         loop_result_of rb = Some r /\
         p' = push p (turns_events pre ++ tr))).
Proof.
  induction its as [|it rest IH]; intros lat p r p' H.
  - simpl in H. unfold starve in H. injection H as <- <-.
    exists []. split; [reflexivity|]. left.
    repeat split. now rewrite push_nil.
  - destruct (loop_body_spec ipc st lat it) as (rb & tr & Hspec & Hrun).
    simpl in H. unfold bind in H. rewrite Hrun in H.
    assert (Hend : forall r0, loop_result_of rb = Some r0 ->
                   (r0, push p tr) = (r, p') ->
                   exists pre,
                     chain ipc st lat pre = true /\
                     ((it :: rest = pre /\ r = Starved /\
                       p' = push p (turns_events pre)) \/
                      (exists it0 rest0 rb0 tr0,
                          it :: rest = pre ++ it0 :: rest0 /\
                          turn_spec ipc st (latest_after lat pre) it0 rb0 tr0 /\
                          loop_result_of rb0 = Some r /\
                          p' = push p (turns_events pre ++ tr0)))).
    { intros r0 Hr0 Heq. injection Heq as <- <-.
      exists []. split; [reflexivity|]. right.
      exists it, rest, rb, tr. repeat split; assumption. }
    destruct Hspec; try (apply (Hend _ eq_refl H)).
    destruct (IH _ _ _ _ H) as (pre & Hpre & Hcases).
    exists (it :: pre). split.
    { simpl. rewrite Hpre.
      now rewrite (turn_passes_intro ipc st lat it) by assumption. }
    destruct Hcases as [(-> & -> & ->)|(it0 & rest0 & rb0 & tr0 & -> & Hs0 & Hr0 & ->)].
    + left. repeat split. now rewrite push_push.
    + right. exists it0, rest0, rb0, tr0. repeat split; trivial.
      rewrite push_push, turns_events_cons. now rewrite <- app_assoc.
Qed.

(** The turn that ends the loop on [break]. *)
Lemma turn_spec_break ipc st lat it l tr :
  turn_spec ipc st lat it (Val (Break, l)) tr ->
  it_step it = inr true /\ it_pageCount it = ipc /\
  it_remaining it = int_sub lat 1 /\ l = it_remaining it /\
  tr = last_turn_events.
Proof. intros H. inversion H; subst; auto. Qed.

(** The turn that ends the loop in [log.Fatal]: some calls, then the log
    line and the exit. *)
Lemma turn_spec_halt ipc st lat it f tr :
  turn_spec ipc st lat it (Halt f) tr ->
  is_loop_failure f = true /\
  exists tl, tr = tl ++ [EvLog f; EvExit 1] /\
             Forall (fun e => loop_event e = true) tl /\
             count is_log tl = 0%nat /\ count is_exit tl = 0%nat.
Proof.
  intros H. inversion H; subst; (split; [reflexivity|]).
  - exists [EvStep 1]. repeat split; repeat constructor.
  - exists [EvStep 1; EvPageCount]. repeat split; repeat constructor.
  - exists [EvStep 1; EvPageCount; EvRemaining].
    repeat split; repeat constructor.
  - exists turn_events. repeat split; repeat constructor.
Qed.

Lemma count_turns f pre :
  count f (turns_events pre) = (List.length pre * count f turn_events)%nat.
Proof.
  induction pre as [|it pre IH]; [reflexivity|].
  rewrite turns_events_cons, count_app, IH. simpl. lia.
Qed.

(** ** Every run, in full *)

(** Once the probe has passed: the passing turns, then the end of the
    record, a turn that fails, or the turn that breaks out followed by the
    final part. *)
Lemma stepping_inv w s d :
  session_created w s d -> probe_passed w ->
  exists pre,
    chain (w_pageCount0 w) (w_start w) (w_remaining0 w) pre = true /\
    ((w_iters w = pre /\
      main w = (Waiting, before_loop w s d ++ turns_events pre)) \/
     (exists it rest,
         w_iters w = pre ++ it :: rest /\
         ((exists f tr,
              turn_spec (w_pageCount0 w) (w_start w)
                (latest_after (w_remaining0 w) pre) it (Halt f) tr /\
              main w = (Aborted f, before_loop w s d ++ turns_events pre ++ tr)) \/
          (exists o tl,
              turn_spec (w_pageCount0 w) (w_start w)
                (latest_after (w_remaining0 w) pre) it
                (Val (Break, it_remaining it)) last_turn_events /\
              finish_spec w (w_pageCount0 w) o tl /\
              main w = (o, before_loop w s d ++ turns_events pre ++
                           last_turn_events ++ tl))))).
Proof.
  intros Hs Hp.
  pose proof (main_body_stepping w s d Hs Hp) as Hmain.
  rewrite stepping_unfold in Hmain. unfold bind in Hmain.
  destruct (loop (w_pageCount0 w) (w_start w) (w_remaining0 w) (w_iters w)
              (push (at_loop w s d) [EvNow])) as [r p'] eqn:Hloop.
  destruct (loop_inv _ _ _ _ _ _ _ Hloop) as (pre & Hpre & Hcases).
  exists pre. split; [exact Hpre|].
  destruct Hcases as [(Hits & -> & ->)|(it & rest & rb & tr & Hits & Hturn & Hres & ->)].
  - left. split; [exact Hits|].
    rewrite (main_of_starved w _ Hmain). reflexivity.
  - right. exists it, rest. split; [exact Hits|].
    destruct rb as [[[|] l]|f|]; try discriminate; injection Hres as <-.
    + right.
      destruct (turn_spec_break _ _ _ _ _ _ Hturn) as (_ & _ & _ & -> & ->).
      destruct (finishing_cases w (w_pageCount0 w)) as (o & tl & Hspec & Hfin).
      exists o, tl. split; [exact Hturn|]. split; [exact Hspec|].
      rewrite (Hfin w (push (push (at_loop w s d) [EvNow])
                         (turns_events pre ++ last_turn_events))
                 eq_refl Hmain). simpl.
      unfold before_loop. simpl. now rewrite <- ?app_assoc.
    + left. exists f, tr. split; [exact Hturn|].
      rewrite (main_of_halt w _ _ Hmain). simpl.
      unfold before_loop. simpl. now rewrite <- ?app_assoc.
Qed.

(** The run whose every check passes. *)
Lemma returned_run w s d pre it rest :
  session_created w s d -> probe_passed w ->
  w_iters w = pre ++ it :: rest ->
  chain (w_pageCount0 w) (w_start w) (w_remaining0 w) pre = true ->
  it_step it = inr true ->
  it_pageCount it = w_pageCount0 w ->
  it_remaining it = int_sub (latest_after (w_remaining0 w) pre) 1 ->
  w_final_pageCount w = w_pageCount0 w -> w_final_remaining w = 0 ->
  w_finish w = None ->
  main w = (Returned,
            before_loop w s d ++ turns_events pre ++ last_turn_events ++
            [EvPageCount; EvRemaining; EvFinish;
             EvClose Dst; EvClose Src; EvExit 0]).
Proof.
  intros Hs Hp Hits Hpre Hstep Hpc Hrem Hfpc Hfrem Hfin.
  rewrite (main_of_val w
    (push (push (push (push (at_loop w s d) [EvNow]) (turns_events pre))
                last_turn_events)
          [EvPageCount; EvRemaining; EvFinish])).
  - simpl. now rewrite <- !app_assoc.
  - rewrite (main_body_stepping w s d Hs Hp), stepping_unfold.
    unfold bind at 1. rewrite Hits, (loop_chain _ _ _ _ _ _ Hpre).
    simpl. unfold bind at 1.
    rewrite (loop_body_done _ _ _ _ _ Hstep Hpc Hrem).
    now apply finishing_ok.
Qed.

(** A run that returns has passed every check. *)
Lemma returned_inv w :
  outcome w = Returned ->
  exists s d pre it rest,
    session_created w s d /\ probe_passed w /\
    w_iters w = pre ++ it :: rest /\
    chain (w_pageCount0 w) (w_start w) (w_remaining0 w) pre = true /\
    it_step it = inr true /\
    it_pageCount it = w_pageCount0 w /\
    it_remaining it = int_sub (latest_after (w_remaining0 w) pre) 1 /\
    w_final_pageCount w = w_pageCount0 w /\
    w_final_remaining w = 0 /\
    w_finish w = None.
Proof.
  unfold outcome. intros Hret.
  destruct (setup_cases w) as [(f & tr & _ & Hmain)|(s & d & Hs)];
    [rewrite Hmain in Hret; discriminate|].
  destruct (probe_cases w s d Hs) as [(f & tr & _ & Hmain)|Hp];
    [rewrite Hmain in Hret; discriminate|].
  destruct (stepping_inv w s d Hs Hp) as (pre & Hpre & Hcases).
  destruct Hcases as [(_ & Hmain)|(it & rest & Hits & Hend)];
    [rewrite Hmain in Hret; discriminate|].
  destruct Hend as [(f & tr & _ & Hmain)|(o & tl & Hturn & Hspec & Hmain)];
    [rewrite Hmain in Hret; discriminate|].
  rewrite Hmain in Hret. cbn [fst] in Hret. subst o.
  destruct (turn_spec_break _ _ _ _ _ _ Hturn) as (Hstep & Hpc & Hrem & _).
  exists s, d, pre, it, rest.
  split; [exact Hs|]. split; [exact Hp|].
  inversion Hspec; subst. repeat split; assumption.
Qed.

(** X1. [main] returns (exit status 0) exactly when every check passed:
    both handles opened, exactly two connections captured, neither nil,
    the session created, the probe not done with equal positive counts,
    every turn up to the one that reports done passed its checks and its
    deadline, the done turn passed its checks, the final page count is the
    initial one, the final remaining count is 0, and [Finish] succeeded. *)
Theorem returned_iff_all_checks_pass w :
  outcome w = Returned <->
  exists s d pre it rest,
    session_created w s d /\ probe_passed w /\
    w_iters w = pre ++ it :: rest /\
    chain (w_pageCount0 w) (w_start w) (w_remaining0 w) pre = true /\
    it_step it = inr true /\
    it_pageCount it = w_pageCount0 w /\
    it_remaining it = int_sub (latest_after (w_remaining0 w) pre) 1 /\
    w_final_pageCount w = w_pageCount0 w /\
    w_final_remaining w = 0 /\
    w_finish w = None.
Proof.
  split; [apply returned_inv|].
  intros (s & d & pre & it & rest & Hs & Hp & Hits & Hpre & Hstep & Hpc
          & Hrem & Hfpc & Hfrem & Hfin).
  unfold outcome. now rewrite (returned_run w s d pre it rest).
Qed.

(** ** How a run ends *)

(** X2. When [main] returns, the trace ends with [Finish], then the two
    deferred calls in reverse order of their [defer], the destination
    first, then the exit with status 0; before that no handle was closed,
    nothing was logged and [Finish] had not been called. *)
Theorem returned_run_ends_with_closes w :
  outcome w = Returned ->
  exists tr,
    trace w = tr ++ [EvFinish; EvClose Dst; EvClose Src; EvExit 0] /\
    count is_finish tr = 0%nat /\ count is_close tr = 0%nat /\
    count is_log tr = 0%nat /\ count is_exit tr = 0%nat.
Proof.
  intros Hret. apply returned_inv in Hret.
  destruct Hret as (s & d & pre & it & rest & Hs & Hp & Hits & Hpre & Hstep
                    & Hpc & Hrem & Hfpc & Hfrem & Hfin).
  exists (before_loop w s d ++ turns_events pre ++ last_turn_events ++
          [EvPageCount; EvRemaining]).
  unfold trace.
  rewrite (returned_run w s d pre it rest) by assumption. cbn [snd].
  split; [now rewrite <- !app_assoc|].
  rewrite !count_app, !count_turns. repeat split; unfold count; simpl; lia.
Qed.

(** One page, copied by the first step. *)
Lemma returned_run_ends_with_closes_witness :
  outcome one_page_world = Returned /\
  exists tr,
    trace one_page_world = tr ++ [EvFinish; EvClose Dst; EvClose Src; EvExit 0] /\
    count is_finish tr = 0%nat /\ count is_close tr = 0%nat /\
    count is_log tr = 0%nat /\ count is_exit tr = 0%nat.
Proof.
  split; [reflexivity|].
  exact (returned_run_ends_with_closes one_page_world eq_refl).
Defined.

Lemma setup_abort_shape w f tr :
  setup_abort w f tr ->
  exists tl, tr = tl ++ [EvLog f; EvExit 1] /\
             count is_log tl = 0%nat /\ count is_exit tl = 0%nat /\
             count is_close tl = 0%nat.
Proof.
  intros H. destruct H.
  - exists [EvOpen Src (sourceFile w)]. repeat split.
  - exists [EvOpen Src (sourceFile w); EvPing Src; EvOpen Dst (destFile w)].
    repeat split.
  - exists (setup_events w). repeat split.
  - exists (setup_events w). repeat split.
  - exists (setup_events w). repeat split.
  - exists (setup_events w ++ [EvBackup d s]). repeat split.
Qed.

Lemma probe_abort_shape w f tr :
  probe_abort w f tr ->
  exists tl, tr = tl ++ [EvLog f; EvExit 1] /\
             count is_log tl = 0%nat /\ count is_exit tl = 0%nat /\
             count is_close tl = 0%nat.
Proof.
  intros H. destruct H.
  - exists [EvStep 0]. repeat split.
  - exists [EvStep 0]. repeat split.
  - exists [EvStep 0; EvPageCount]. repeat split.
  - exists [EvStep 0; EvPageCount; EvRemaining]. repeat split.
  - exists [EvStep 0; EvPageCount; EvRemaining]. repeat split.
Qed.

Lemma finish_spec_shape w ipc f tl :
  finish_spec w ipc (Aborted f) tl ->
  exists tl', tl = tl' ++ [EvLog f; EvExit 1] /\
              count is_log tl' = 0%nat /\ count is_exit tl' = 0%nat /\
              count is_close tl' = 0%nat.
Proof.
  intros H. inversion H; subst.
  - exists [EvPageCount]. repeat split.
  - exists [EvPageCount; EvRemaining]. repeat split.
  - exists [EvPageCount; EvRemaining; EvFinish]. repeat split.
Qed.

Lemma count_loop_events_close tl :
  Forall (fun e => loop_event e = true) tl -> count is_close tl = 0%nat.
Proof. apply count_none, loop_event_not_close. Qed.

(** X3. A run that ends in [log.Fatal] ends with the line of its failure
    followed by the exit with status 1; before that nothing was logged and
    nothing exited, and no handle is closed at any point of the run. *)
Theorem aborted_run_ends_with_log_and_exit w f :
  outcome w = Aborted f ->
  exists tr,
    trace w = tr ++ [EvLog f; EvExit 1] /\
    count is_log tr = 0%nat /\ count is_exit tr = 0%nat /\
    count is_close tr = 0%nat.
Proof.
  unfold outcome, trace. intros Hout.
  destruct (setup_cases w) as [(f0 & tr & Hab & Hmain)|(s & d & Hs)].
  { rewrite Hmain in *. cbn [fst snd] in *. injection Hout as ->.
    exact (setup_abort_shape w f tr Hab). }
  destruct (probe_cases w s d Hs) as [(f0 & tr & Hab & Hmain)|Hp].
  { rewrite Hmain in *. cbn [fst snd] in *. injection Hout as ->.
    destruct (probe_abort_shape w f tr Hab) as (tl & -> & Hl & He & Hc).
    exists ((setup_events w ++ [EvBackup d s]) ++ tl).
    split; [now rewrite <- !app_assoc|].
    rewrite !count_app, Hl, He, Hc. repeat split. }
  destruct (stepping_inv w s d Hs Hp) as (pre & Hpre & Hcases).
  destruct Hcases as [(_ & Hmain)|(it & rest & Hits & Hend)];
    [rewrite Hmain in Hout; discriminate|].
  destruct Hend as [(f0 & tr & Hturn & Hmain)|(o & tl & Hturn & Hspec & Hmain)].
  - rewrite Hmain in *. cbn [fst snd] in *. injection Hout as ->.
    destruct (turn_spec_halt _ _ _ _ _ _ Hturn)
      as (_ & tl & -> & Hev & Hl & He).
    exists (before_loop w s d ++ turns_events pre ++ tl).
    split; [now rewrite <- !app_assoc|].
    rewrite !count_app, !count_turns, Hl, He, (count_loop_events_close tl Hev).
    repeat split; unfold count; simpl; lia.
  - rewrite Hmain in *. cbn [fst snd] in *. subst o.
    destruct (finish_spec_shape _ _ _ _ Hspec) as (tl' & -> & Hl & He & Hc).
    exists (before_loop w s d ++ turns_events pre ++ last_turn_events ++ tl').
    split; [now rewrite <- !app_assoc|].
    rewrite !count_app, !count_turns, Hl, He, Hc.
    repeat split; unfold count; simpl; lia.
Qed.

(** Two pages; the second one-page step fails. *)
Lemma aborted_run_ends_with_log_and_exit_witness :
  outcome second_step_fails_world = Aborted (StepFailed "disk I/O error"%string) /\
  exists tr,
    trace second_step_fails_world =
      tr ++ [EvLog (StepFailed "disk I/O error"%string); EvExit 1] /\
    count is_log tr = 0%nat /\ count is_exit tr = 0%nat /\
    count is_close tr = 0%nat.
Proof.
  split; [reflexivity|].
  exact (aborted_run_ends_with_log_and_exit second_step_fails_world _ eq_refl).
Defined.

(** ** Errors from the outside *)

Lemma open_src_failure_run w e :
  answer (w_open_src w) = Some e ->
  main w = (Aborted (OpenFailed Src e),
            [EvOpen Src (sourceFile w); EvLog (OpenFailed Src e); EvExit 1]).
Proof.
  intros Hs. unfold main, main_body, start. unfold_calls.
  rewrite Hs. reflexivity.
Qed.

Lemma open_dst_failure_run w e :
  answer (w_open_src w) = None -> answer (w_open_dst w) = Some e ->
  main w = (Aborted (OpenFailed Dst e),
            [EvOpen Src (sourceFile w); EvPing Src; EvOpen Dst (destFile w);
             EvLog (OpenFailed Dst e); EvExit 1]).
Proof.
  intros Hs Hd. unfold main, main_body, start. unfold_calls.
  rewrite Hs. simpl. rewrite Hd. reflexivity.
Qed.

(** X4. If the source cannot be opened, the run ends right there: nothing
    is pinged and the destination is never opened.  If the destination
    cannot be opened, the source has been opened and pinged, the
    destination is not pinged, and the run ends without closing the
    source. *)
Theorem open_failure_stops_setup w e :
  (answer (w_open_src w) = Some e ->
   main w = (Aborted (OpenFailed Src e),
             [EvOpen Src (sourceFile w); EvLog (OpenFailed Src e); EvExit 1]) /\
   count is_close (trace w) = 0%nat)
  /\
  (answer (w_open_src w) = None -> answer (w_open_dst w) = Some e ->
   main w = (Aborted (OpenFailed Dst e),
             [EvOpen Src (sourceFile w); EvPing Src; EvOpen Dst (destFile w);
              EvLog (OpenFailed Dst e); EvExit 1]) /\
   count is_close (trace w) = 0%nat).
Proof.
  split.
  - intros Hs. unfold trace. rewrite (open_src_failure_run w e Hs).
    split; reflexivity.
  - intros Hs Hd. unfold trace. rewrite (open_dst_failure_run w e Hs Hd).
    split; reflexivity.
Qed.

Lemma loop_event_no_backup e : loop_event e = true -> is_backup e = false.
Proof. destruct e; simpl; congruence. Qed.

(** What follows the creation of the session holds no other [Backup]. *)
Lemma after_backup w s d :
  session_created w s d ->
  exists post, trace w = setup_events w ++ EvBackup d s :: post /\
               count is_backup post = 0%nat.
Proof.
  intros Hs. unfold trace.
  destruct (probe_cases w s d Hs) as [(f & tr & Hab & Hmain)|Hp].
  { exists tr. rewrite Hmain. split; [reflexivity|].
    destruct Hab; reflexivity. }
  destruct (stepping_inv w s d Hs Hp) as (pre & Hpre & Hcases).
  destruct Hcases as [(_ & Hmain)|(it & rest & Hits & Hend)].
  { exists ([EvStep 0; EvPageCount; EvRemaining; EvNow] ++ turns_events pre).
    rewrite Hmain. split; [reflexivity|].
    rewrite count_app, count_turns. unfold count. simpl. lia. }
  destruct Hend as [(f & tr & Hturn & Hmain)|(o & tl & Hturn & Hspec & Hmain)].
  - exists ([EvStep 0; EvPageCount; EvRemaining; EvNow] ++ turns_events pre ++ tr).
    rewrite Hmain. split; [reflexivity|].
    destruct (turn_spec_halt _ _ _ _ _ _ Hturn) as (_ & tl & -> & Hev & _).
    rewrite !count_app, count_turns.
    rewrite (count_none is_backup loop_event tl loop_event_no_backup Hev).
    unfold count. simpl. lia.
  - exists ([EvStep 0; EvPageCount; EvRemaining; EvNow] ++ turns_events pre ++
            last_turn_events ++ tl).
    rewrite Hmain. split; [reflexivity|].
    rewrite !count_app, count_turns.
    assert (Htl : count is_backup tl = 0%nat) by (destruct Hspec; reflexivity).
    rewrite Htl. unfold count. simpl. lia.
Qed.

Lemma backup_error_run w s d e :
  opened w -> captured w = [Some s; Some d] -> w_backup w = Some e ->
  main w = (Aborted (BackupFailed e),
            setup_events w ++ [EvBackup d s; EvLog (BackupFailed e); EvExit 1]).
Proof.
  intros Ho Hc Hb.
  apply main_of_halt with
    (p := push (at_check w) [EvBackup d s; EvLog (BackupFailed e); EvExit 1]).
  rewrite (main_body_setup w Ho).
  unfold check_conns, get_driverConns, bind, fatal. simpl.
  rewrite Hc. unfold session. unfold_calls. rewrite Hb. reflexivity.
Qed.

(** X5. A session is requested at most once in a run, and exactly when
    both handles opened and the hook captured exactly two connections,
    neither nil: the request is the first call after the set-up, made on
    the second captured connection with the first captured connection as
    source. *)
Theorem backup_requested_once w :
  (forall s d, opened w -> captured w = [Some s; Some d] ->
     exists post, trace w = setup_events w ++ EvBackup d s :: post /\
                  count is_backup post = 0%nat) /\
  (~ opened w \/ (forall s d, captured w <> [Some s; Some d]) ->
   count is_backup (trace w) = 0%nat).
Proof.
  split.
  - intros s d Ho Hc. destruct (w_backup w) as [e|] eqn:Hb.
    + exists [EvLog (BackupFailed e); EvExit 1]. unfold trace.
      rewrite (backup_error_run w s d e Ho Hc Hb). split; reflexivity.
    + apply after_backup. split; [exact Ho|]. split; assumption.
  - intros Hno. unfold trace.
    destruct (setup_cases w) as [(f & tr & Hab & Hmain)|(s & d & Hs)].
    + rewrite Hmain. cbn [snd].
      destruct Hab as [e He|e Hs He|Ho Hn|c1 Ho Hc|s Ho Hc|s d e Ho Hc Hb];
        try reflexivity.
      exfalso. destruct Hno as [Hno|Hno]; [now apply Hno|now apply (Hno s d)].
    + exfalso. destruct Hs as (Ho & Hc & _).
      destruct Hno as [Hno|Hno]; [now apply Hno|now apply (Hno s d)].
Qed.

(** X6. If the engine refuses the session, the run ends right after the
    request: no step is issued, no count is read and [Finish] is not
    called. *)
Theorem backup_error_stops_before_probe w s d e :
  opened w -> captured w = [Some s; Some d] -> w_backup w = Some e ->
  main w = (Aborted (BackupFailed e),
            setup_events w ++ [EvBackup d s; EvLog (BackupFailed e); EvExit 1])
  /\ count is_step (trace w) = 0%nat
  /\ count is_accessor (trace w) = 0%nat
  /\ count is_finish (trace w) = 0%nat.
Proof.
  intros Ho Hc Hb. unfold trace.
  rewrite (backup_error_run w s d e Ho Hc Hb). repeat split.
Qed.

(** The engine refuses the session. *)
Lemma backup_error_stops_before_probe_witness :
  (opened no_session_world /\
   captured no_session_world = [Some 1%nat; Some 2%nat] /\
   w_backup no_session_world = Some "destination database is in use"%string) /\
  main no_session_world =
  (Aborted (BackupFailed "destination database is in use"%string),
   [EvOpen Src "source.db"; EvPing Src; EvOpen Dst "dest.db"; EvPing Dst;
    EvBackup 2%nat 1%nat;
    EvLog (BackupFailed "destination database is in use"%string); EvExit 1]).
Proof.
  assert (Ho : opened no_session_world) by (split; reflexivity).
  split; [repeat split|].
  exact (proj1 (backup_error_stops_before_probe no_session_world 1%nat 2%nat
                  "destination database is in use"%string Ho eq_refl eq_refl)).
Defined.

(** X7. If the zero-page step fails, the run ends right after it: neither
    count is read, no one-page step is issued and [Finish] is not
    called. *)
Theorem probe_error_stops_before_reading w s d e :
  session_created w s d -> w_probe w = inl e ->
  main w = (Aborted (ProbeFailed e),
            setup_events w ++
            [EvBackup d s; EvStep 0; EvLog (ProbeFailed e); EvExit 1])
  /\ count is_accessor (trace w) = 0%nat
  /\ count (is_step_of 1) (trace w) = 0%nat
  /\ count is_finish (trace w) = 0%nat.
Proof.
  intros Hs Hp.
  assert (Hmain : main w = (Aborted (ProbeFailed e),
            setup_events w ++
            [EvBackup d s; EvStep 0; EvLog (ProbeFailed e); EvExit 1])).
  { destruct (probe_cases w s d Hs) as [(f & tr & Hab & Hmain)|Hpass].
    - destruct Hab; congruence.
    - destruct Hpass as (Hpass & _). congruence. }
  unfold trace. rewrite Hmain. repeat split.
Qed.

(** The zero-page step fails. *)
Lemma probe_error_stops_before_reading_witness :
  (session_created failing_probe_world 1%nat 2%nat /\
   w_probe failing_probe_world = inl "disk I/O error"%string) /\
  main failing_probe_world =
  (Aborted (ProbeFailed "disk I/O error"%string),
   [EvOpen Src "source.db"; EvPing Src; EvOpen Dst "dest.db"; EvPing Dst;
    EvBackup 2%nat 1%nat; EvStep 0;
    EvLog (ProbeFailed "disk I/O error"%string); EvExit 1]).
Proof.
  assert (Hs : session_created failing_probe_world 1%nat 2%nat)
    by (repeat split; reflexivity).
  split; [split; [exact Hs|reflexivity]|].
  exact (proj1 (probe_error_stops_before_reading failing_probe_world
                  1%nat 2%nat "disk I/O error"%string Hs eq_refl)).
Defined.

(** X8. If a one-page step fails, after any number of turns that passed,
    the run ends right after that step: the counts and the clock are not
    read in that turn, and [Finish] is not called. *)
Theorem step_error_ends_run w s d pre it rest e :
  session_created w s d -> probe_passed w ->
  w_iters w = pre ++ it :: rest ->
  chain (w_pageCount0 w) (w_start w) (w_remaining0 w) pre = true ->
  it_step it = inl e ->
  main w = (Aborted (StepFailed e),
            before_loop w s d ++ turns_events pre ++
            [EvStep 1; EvLog (StepFailed e); EvExit 1])
  /\ count is_finish (trace w) = 0%nat.
Proof.
  intros Hs Hp Hits Hpre Hstep.
  pose proof (turn_abort_run w s d pre it rest _ _ Hs Hp Hits Hpre
                (fun p => loop_body_step_error _ _ _ _ p e Hstep)) as Hmain.
  split; [exact Hmain|].
  unfold trace. rewrite Hmain. cbn [snd].
  rewrite !count_app, count_turns. unfold count. simpl. lia.
Qed.

(** Two pages; the second one-page step fails. *)
Lemma step_error_ends_run_witness :
  (session_created second_step_fails_world 1%nat 2%nat /\
   probe_passed second_step_fails_world) /\
  main second_step_fails_world =
  (Aborted (StepFailed "disk I/O error"%string),
   [EvOpen Src "source.db"; EvPing Src; EvOpen Dst "dest.db"; EvPing Dst;
    EvBackup 2%nat 1%nat; EvStep 0; EvPageCount; EvRemaining; EvNow;
    EvStep 1; EvPageCount; EvRemaining; EvNow;
    EvStep 1; EvLog (StepFailed "disk I/O error"%string); EvExit 1]).
Proof.
  assert (Hs : session_created second_step_fails_world 1%nat 2%nat)
    by (repeat split; reflexivity).
  assert (Hp : probe_passed second_step_fails_world)
    by (repeat split; reflexivity).
  split; [auto|].
  exact (proj1 (step_error_ends_run second_step_fails_world 1%nat 2%nat
                  [turn false 2 1 101]
                  {| it_step := inl "disk I/O error"%string; it_pageCount := 2;
                     it_remaining := 1; it_now := 102 |} []
                  "disk I/O error"%string Hs Hp eq_refl eq_refl eq_refl)).
Defined.

(** ** A loop that goes on *)

(** X9. The loop has no bound of its own.  As long as every step reports
    not done and passes its two checks, and the clock reads at most 10
    past the start time, the run issues a further step: a clock reading of
    exactly 10 does not abort, and neither does a remaining count of 0 or
    below.  At the end of the recorded turns the run is still stepping: it
    has logged nothing, has not exited and has not called [Finish]. *)
Theorem passing_turns_keep_stepping w s d :
  session_created w s d -> probe_passed w ->
  chain (w_pageCount0 w) (w_start w) (w_remaining0 w) (w_iters w) = true ->
  main w = (Waiting, before_loop w s d ++ turns_events (w_iters w)) /\
  count (is_step_of 1) (trace w) = List.length (w_iters w) /\
  count is_log (trace w) = 0%nat /\ count is_exit (trace w) = 0%nat /\
  count is_finish (trace w) = 0%nat.
Proof.
  intros Hs Hp Hch.
  assert (Hmain : main w
                  = (Waiting, before_loop w s d ++ turns_events (w_iters w))).
  { apply (main_of_starved w
             (push (push (at_loop w s d) [EvNow]) (turns_events (w_iters w)))).
    rewrite (main_body_stepping w s d Hs Hp), stepping_unfold.
    unfold bind at 1.
    rewrite <- (app_nil_r (w_iters w)) at 1.
    rewrite (loop_chain _ _ _ _ _ _ Hch). reflexivity. }
  split; [exact Hmain|].
  unfold trace. rewrite Hmain. cbn [snd].
  rewrite !count_app, !count_turns. repeat split; unfold count; simpl; lia.
Qed.

(** One page; the engine never reports done, the count goes below 0 and
    the clock stops exactly 10 seconds after the start. *)
Lemma passing_turns_keep_stepping_witness :
  (session_created endless_world 1%nat 2%nat /\ probe_passed endless_world /\
   int64_sub 110 100 = timeout) /\
  main endless_world =
  (Waiting,
   [EvOpen Src "source.db"; EvPing Src; EvOpen Dst "dest.db"; EvPing Dst;
    EvBackup 2%nat 1%nat; EvStep 0; EvPageCount; EvRemaining; EvNow;
    EvStep 1; EvPageCount; EvRemaining; EvNow;
    EvStep 1; EvPageCount; EvRemaining; EvNow;
    EvStep 1; EvPageCount; EvRemaining; EvNow]).
Proof.
  assert (Hs : session_created endless_world 1%nat 2%nat)
    by (repeat split; reflexivity).
  assert (Hp : probe_passed endless_world) by (repeat split; reflexivity).
  split; [repeat split; assumption || reflexivity|].
  exact (proj1 (passing_turns_keep_stepping endless_world 1%nat 2%nat
                  Hs Hp eq_refl)).
Defined.

(** ** Counting down *)

(** X10. While the turns pass, the loop counts down: after the turns of
    [pre] it goes on with the initial remaining count minus their number as
    the previous count, every turn having read the initial page count and,
    at turn [i] (from 1), the initial remaining count minus [i].  (The
    count starts inside [int] and stays above its minimum.) *)
Theorem loop_counts_down ipc st lat pre rest p :
  chain ipc st lat pre = true ->
  lat <= int_max -> int_min + Z.of_nat (List.length pre) <= lat ->
  loop ipc st lat (pre ++ rest) p =
  loop ipc st (lat - Z.of_nat (List.length pre)) rest
    (push p (turns_events pre)) /\
  forall i it, nth_error pre i = Some it ->
    it_pageCount it = ipc /\ it_remaining it = lat - Z.of_nat (S i).
Proof.
  intros Hch Hmax Hmin.
  destruct (chain_counts_down ipc st pre lat Hch Hmax Hmin) as [Hlat Hnth].
  split; [|exact Hnth].
  rewrite (loop_chain _ _ _ _ _ _ Hch). now rewrite Hlat.
Qed.

(** Three pages, two turns. *)
Lemma loop_counts_down_witness :
  (chain 3 100 3 [turn false 3 2 101; turn false 3 1 102] = true /\
   3 <= int_max /\ int_min + 2 <= 3) /\
  loop 3 100 3 ([turn false 3 2 101; turn false 3 1 102] ++ [turn true 3 0 103])
    start =
  loop 3 100 (3 - 2) [turn true 3 0 103]
    (push start (turns_events [turn false 3 2 101; turn false 3 1 102])).
Proof.
  assert (H1 : 3 <= int_max) by (unfold int_max; lia).
  assert (H2 : int_min + Z.of_nat 2 <= 3) by (unfold int_min; lia).
  split; [repeat split; assumption || reflexivity|].
  exact (proj1 (loop_counts_down 3 100 3
                  [turn false 3 2 101; turn false 3 1 102]
                  [turn true 3 0 103] start eq_refl H1 H2)).
Defined.

Lemma first_done_chain ipc st pre it rest : forall lat,
  chain ipc st lat pre = true -> it_step it = inr true ->
  first_done (pre ++ it :: rest) = Some it.
Proof.
  unfold first_done.
  induction pre as [|it0 pre IH]; intros lat Hch Hdone; simpl.
  - unfold reports_done. now rewrite Hdone.
  - simpl in Hch. apply andb_true_iff in Hch as [Hit Hpre].
    apply turn_passes_inv in Hit as (Hs & _).
    unfold reports_done at 1. rewrite Hs. exact (IH _ Hpre Hdone).
Qed.

(** X11. A run that returns has issued exactly as many one-page steps as
    the initial page count, provided the final [Remaining()] returns what
    it returned in the turn that reported done (and the counts stay inside
    [int]: the initial remaining count is an [int] and the record holds at
    most 2^63 turns). *)
Theorem returned_steps_equal_pages w :
  outcome w = Returned ->
  (forall it, first_done (w_iters w) = Some it ->
              w_final_remaining w = it_remaining it) ->
  w_remaining0 w <= int_max ->
  Z.of_nat (List.length (w_iters w)) <= 2 ^ 63 ->
  Z.of_nat (count (is_step_of 1) (trace w)) = w_pageCount0 w.
Proof.
  intros Hret Hstable Hmax Hlen.
  destruct (returned_inv w Hret)
    as (s & d & pre & it & rest & Hs & Hp & Hits & Hpre & Hstep & Hpc & Hrem
        & Hfpc & Hfrem & Hfin).
  pose proof (returned_run w s d pre it rest Hs Hp Hits Hpre Hstep Hpc Hrem
                Hfpc Hfrem Hfin) as Hmain.
  rewrite Hits in Hlen, Hstable.
  rewrite length_app in Hlen. cbn [List.length] in Hlen.
  pose proof (Hstable it (first_done_chain _ _ _ _ _ _ Hpre Hstep)) as Hlast.
  destruct Hp as (Hprobe & Hpc0 & Hrem0 & Heq).
  assert (Hmin : int_min + Z.of_nat (List.length pre) <= w_remaining0 w)
    by (unfold int_min; lia).
  destruct (chain_counts_down _ _ _ _ Hpre Hmax Hmin) as [Hlat _].
  rewrite Hlat, int_sub_one in Hrem by (unfold int_min, int_max in *; lia).
  unfold trace. rewrite Hmain. cbn [snd].
  rewrite !count_app, count_turns. unfold count. simpl. lia.
Qed.

(** Three pages, copied in three steps. *)
Lemma returned_steps_equal_pages_witness :
  outcome late_world = Returned /\
  Z.of_nat (count (is_step_of 1) (trace late_world)) = w_pageCount0 late_world.
Proof.
  split; [reflexivity|].
  apply (returned_steps_equal_pages late_world eq_refl).
  - intros it H. injection H as <-. reflexivity.
  - unfold int_max. simpl. lia.
  - simpl. lia.
Defined.

(** ** No false alarm *)




(** ** The edge of [int] *)

Lemma wrap64_in_int z : in_int (wrap64 z).
Proof.
  unfold in_int, int_min, int_max, wrap64.
  pose proof (Z.mod_pos_bound (z + 2 ^ 63) (2 ^ 64)). lia.
Qed.

(** X13. The expected remaining count of line 101 is always an [int]; it
    is the previous count minus 1 exactly when the previous count is not
    the minimum [int], where it wraps to the maximum [int]: there a turn
    that reads the maximum [int] passes the check of line 102. *)
Theorem expected_remaining_wraps lat :
  in_int lat ->
  in_int (int_sub lat 1) /\
  (int_sub lat 1 = lat - 1 <-> lat <> int_min) /\
  (lat = int_min ->
   int_sub lat 1 = int_max /\
   forall ipc st it p,
     it_step it = inr true -> it_pageCount it = ipc ->
     it_remaining it = int_max ->
     loop_body ipc st lat it p = (Val (Break, int_max), push p last_turn_events)).
Proof.
  intros Hin. split; [apply wrap64_in_int|].
  assert (Hwrap : int_sub int_min 1 = int_max) by reflexivity.
  split; [split|].
  - intros Heq ->. rewrite Hwrap in Heq. unfold int_max, int_min in Heq. lia.
  - intros Hne. apply int_sub_one. unfold in_int in Hin. lia.
  - intros ->. split; [exact Hwrap|].
    intros ipc st it p Hstep Hpc Hrem.
    rewrite <- Hrem. apply loop_body_done; [assumption|assumption|].
    now rewrite Hwrap.
Qed.

(** The previous count is the minimum [int]. *)
Lemma expected_remaining_wraps_witness :
  in_int int_min /\ int_sub int_min 1 = int_max /\
  (int_sub int_min 1 = int_min - 1 <-> int_min <> int_min).
Proof.
  assert (Hin : in_int int_min) by (unfold in_int, int_min, int_max; lia).
  split; [exact Hin|].
  split.
  - exact (proj1 (proj2 (proj2 (expected_remaining_wraps int_min Hin)) eq_refl)).
  - exact (proj1 (proj2 (expected_remaining_wraps int_min Hin))).
Defined.

(** ** The captured connections, again *)

(** X14. Only the order in which the hook captured the connections
    matters: whichever calls made the driver connect, a run with the same
    connections captured in the same order makes the same calls and ends
    the same way, the first captured connection being taken for the source
    and the second for the destination. *)
Theorem capture_order_only w h1 h2 h3 h4 :
  h1 ++ h2 ++ h3 ++ h4 = captured w ->
  main (with_hooks h1 h2 h3 h4 w) = main w.
Proof.
  intros Hcap.
  destruct (answer (w_open_src w)) as [e|] eqn:Hs.
  { rewrite (open_src_failure_run w e Hs).
    now rewrite (open_src_failure_run (with_hooks h1 h2 h3 h4 w) e Hs). }
  destruct (answer (w_open_dst w)) as [e|] eqn:Hd.
  { rewrite (open_dst_failure_run w e Hs Hd).
    now rewrite (open_dst_failure_run (with_hooks h1 h2 h3 h4 w) e Hs Hd). }
  assert (Ho : opened w) by (split; assumption).
  assert (Ho' : opened (with_hooks h1 h2 h3 h4 w)) by (split; assumption).
  unfold main.
  rewrite (main_body_setup w Ho), (main_body_setup _ Ho').
  assert (Hat : at_check (with_hooks h1 h2 h3 h4 w) = at_check w).
  { unfold at_check, captured. simpl.
    rewrite Hcap. reflexivity. }
  rewrite Hat. reflexivity.
Qed.

(** Both connections are made while the source is pinged; the second one
    is taken for the destination. *)
Lemma capture_order_only_witness :
  [] ++ [Some 7%nat] ++ [] ++ [Some 8%nat] = captured early_conns_world /\
  main (with_hooks [] [Some 7%nat] [] [Some 8%nat] early_conns_world) =
  main early_conns_world /\
  main early_conns_world =
  (Aborted UnexpectedlyDone,
   [EvOpen Src "source.db"; EvPing Src; EvOpen Dst "dest.db"; EvPing Dst;
    EvBackup 8%nat 7%nat; EvStep 0; EvLog UnexpectedlyDone; EvExit 1]).
Proof.
  split; [reflexivity|]. split; [|reflexivity].
  exact (capture_order_only early_conns_world
           [] [Some 7%nat] [] [Some 8%nat] eq_refl).
Defined.
